(** * tools/tcp_server_dump.py: a diagnostic TCP server

    The script binds a listening socket, accepts clients one after the
    other, reads from each of them with [read_tcp], dumps what was read
    to a file and echoes it on standard output ([run_server]).

    The script is Python 2: [str] is a sequence of 8-bit characters, so
    the bytes that travel from the socket to the file are modelled as
    Rocq [string]s.  The operating system (sockets, files, standard
    output) is an explicit [world] threaded through a small
    state-and-exception monad; everything the script does to the outside
    is appended to the world's [log]. *)

From Stdlib Require Import ZArith QArith_base Ascii String List.
From stdpp Require Import base gmap strings list.
Close Scope Q_scope.
Local Open Scope string_scope.

(** ** Constants of the script and of the [errno] module *)

Definition DEFAULT_TIMEOUT : Z := 30.
Definition DEFAULT_PORT : Z := 40000.
Definition DEFAULT_DELAY : Q := 0%Q.
Definition BUFSIZE : Z := 1024.

(** [errno.EAGAIN]; the number is the platform's (11 on Linux, where
    [EWOULDBLOCK] is the same number).  No proof below depends on the
    value. *)
Definition EAGAIN : Z := 11.
Definition EWOULDBLOCK : Z := EAGAIN.

(** ** Byte strings *)

(** [s[:n]] *)
Fixpoint str_take (n : nat) (s : string) : string :=
  match n, s with
  | S n', String c s' => String c (str_take n' s')
  | _, _ => EmptyString
  end.

(** [s[n:]] *)
Fixpoint str_drop (n : nat) (s : string) : string :=
  match n, s with
  | S n', String _ s' => str_drop n' s'
  | _, _ => s
  end.

(** ** Exceptions and outcomes *)

Inductive exn : Type :=
| socket_error (errno : Z)      (* socket.error *)
| socket_timeout                (* socket.timeout, a subclass of socket.error *)
| IOError (path : string)       (* open() refused *)
| ValueError (msg : string)
| OverflowError (msg : string)
| SystemExit (code : Z).        (* raised by argparse; not an Exception *)

(** [isinstance(e, socket.error)] *)
Definition is_socket_error (e : exn) : bool :=
  match e with
  | socket_error _ | socket_timeout => true
  | _ => false
  end.

(** [isinstance(e, Exception)] *)
Definition is_Exception (e : exn) : bool :=
  match e with
  | SystemExit _ => false
  | _ => true
  end.

(** [e.errno]; [None] when the exception carries none *)
Definition exn_errno (e : exn) : option Z :=
  match e with
  | socket_error n => Some n
  | _ => None
  end.

(** A computation returns, raises, or never comes back (a call that
    blocks for ever, or a loop that is still running when the fuel of
    the model is spent). *)
Inductive outcome (A : Type) : Type :=
| Ret (a : A)
| Raise (e : exn)
| Hang.
Arguments Ret {A} a.
Arguments Raise {A} e.
Arguments Hang {A}.

(** ** The world outside the script *)

(** What one [recv] call came back with. *)
Inductive recv_result : Type :=
| Got (data : string)
| Failed (errno : Z).

(** The server's end of a client connection.  [faults] are the errors
    the next [recv] calls raise, in order, before data is served (the
    would-block errors of a socket the system left non-blocking, or a
    reset); [rxbuf] is what the receive buffer holds at the moment a
    [recv] is served: the bytes of the client that have arrived by then,
    which need not be all it sends before it closes its side. *)
Record conn : Type := Conn {
  faults : list Z;
  rxbuf : string
}.

Inductive event : Type :=
| EvPrint (line : string)
| EvSocket
| EvReuseAddr
| EvBind (port : Z)
| EvListen (backlog : Z)
| EvSetTimeout (t : Z)
| EvAccept (fd : nat)
| EvSleep (seconds : Q)
| EvRecv (fd : nat) (bufsize : Z) (r : recv_result)
| EvOpen (path : string)
| EvWrite (path : string) (data : string)
| EvCloseFile (path : string)
| EvCloseConn (fd : nat).

Record world : Type := World {
  pending : list conn;           (* clients that will connect, in order *)
  socks : gmap nat conn;         (* accepted sockets, by descriptor *)
  next_fd : nat;
  listen_timeout : option Z;     (* timeout of the listening socket *)
  busy_ports : gset Z;           (* ports another process is bound to *)
  fs : gmap string string;       (* files: path to content *)
  denied : gset string;          (* paths that cannot be opened for writing *)
  log : list event               (* what the script did, oldest first *)
}.

Definition emit (e : event) (w : world) : world :=
  World (pending w) (socks w) (next_fd w) (listen_timeout w) (busy_ports w)
        (fs w) (denied w) (log w ++ [e]).

Definition set_fs (f : gmap string string) (w : world) : world :=
  World (pending w) (socks w) (next_fd w) (listen_timeout w) (busy_ports w)
        f (denied w) (log w).

Definition set_socks (s : gmap nat conn) (w : world) : world :=
  World (pending w) s (next_fd w) (listen_timeout w) (busy_ports w)
        (fs w) (denied w) (log w).

Definition set_listen_timeout (t : option Z) (w : world) : world :=
  World (pending w) (socks w) (next_fd w) t (busy_ports w)
        (fs w) (denied w) (log w).

Definition take_pending (rest : list conn) (fd : nat) (c : conn) (w : world) : world :=
  World rest (<[fd := c]> (socks w)) (S fd) (listen_timeout w) (busy_ports w)
        (fs w) (denied w) (log w).

(** ** The monad *)

Definition M (A : Type) : Type := world -> outcome A * world.

Definition ret {A} (a : A) : M A := fun w => (Ret a, w).
Definition raise {A} (e : exn) : M A := fun w => (Raise e, w).
Definition hang {A} : M A := fun w => (Hang, w).

Definition bind {A B} (m : M A) (k : A -> M B) : M B :=
  fun w =>
    match m w with
    | (Ret a, w') => k a w'
    | (Raise e, w') => (Raise e, w')
    | (Hang, w') => (Hang, w')
    end.

(** [try: m  except <class> as e: h e] *)
Definition try_except {A} (m : M A) (class : exn -> bool) (h : exn -> M A) : M A :=
  fun w =>
    match m w with
    | (Raise e, w') => if class e then h e w' else (Raise e, w')
    | r => r
    end.

Notation "x <- m ;; k" := (bind m (fun x => k))
  (at level 100, m at level 99, right associativity).
Notation "m ;;; k" := (bind m (fun _ => k))
  (at level 100, k at level 100, right associativity).

(** ** System calls and library calls used by the script

    The world has one listening socket, [serv] of the script; accepted
    sockets are named by their descriptor, an open file by its path. *)

Definition EBADF : Z := 9.
Definition EADDRINUSE : Z := 98.

Record options : Type := Options {
  datafile : string;
  single : bool;
  port : Z;
  timeout : Z;
  delay : Q
}.

(** [print line] and the [print] statement *)
Definition print (line : string) : M unit :=
  fun w => (Ret tt, emit (EvPrint line) w).

(** [serv = socket.socket(socket.AF_INET, socket.SOCK_STREAM)]: a new
    socket has no timeout *)
Definition socket_create : M unit :=
  fun w => (Ret tt, emit EvSocket (set_listen_timeout None w)).

(** [serv.setsockopt(socket.SOL_SOCKET, socket.SO_REUSEADDR, 1)] *)
Definition setsockopt_reuseaddr : M unit :=
  fun w => (Ret tt, emit EvReuseAddr w).

(** [serv.bind(('', port))] *)
Definition sock_bind (port : Z) : M unit :=
  fun w =>
    if decide (0 <= port <= 65535)%Z then
      if decide (port ∈ busy_ports w) then (Raise (socket_error EADDRINUSE), w)
      else (Ret tt, emit (EvBind port) w)
    else (Raise (OverflowError "getsockaddrarg: port must be 0-65535."), w).

(** [serv.listen(backlog)] *)
Definition sock_listen (backlog : Z) : M unit :=
  fun w => (Ret tt, emit (EvListen backlog) w).

(** [serv.settimeout(t)] *)
Definition settimeout (t : Z) : M unit :=
  fun w =>
    if decide (t < 0)%Z then (Raise (ValueError "Timeout value out of range"), w)
    else (Ret tt, emit (EvSetTimeout t) (set_listen_timeout (Some t) w)).

(** [serv.accept()]: the next client, if one connects; otherwise the
    call times out when the listening socket has a timeout and blocks
    for ever when it has none. *)
Definition accept : M nat :=
  fun w =>
    match pending w with
    | c :: rest =>
        let fd := next_fd w in
        (Ret fd, emit (EvAccept fd) (take_pending rest fd c w))
    | [] =>
        match listen_timeout w with
        | Some _ => (Raise socket_timeout, w)
        | None => (Hang, w)
        end
    end.

(** [conn.recv(bufsize)] *)
Definition recv (fd : nat) (bufsize : Z) : M string :=
  fun w =>
    if decide (bufsize < 0)%Z then
      (Raise (ValueError "negative buffersize in recv"), w)
    else
      match socks w !! fd with
      | None => (Raise (socket_error EBADF), w)
      | Some c =>
          match faults c with
          | e :: rest =>
              (Raise (socket_error e),
               emit (EvRecv fd bufsize (Failed e))
                    (set_socks (<[fd := Conn rest (rxbuf c)]> (socks w)) w))
          | [] =>
              let n := Z.to_nat bufsize in
              let data := str_take n (rxbuf c) in
              (Ret data,
               emit (EvRecv fd bufsize (Got data))
                    (set_socks (<[fd := Conn [] (str_drop n (rxbuf c))]> (socks w)) w))
          end
      end.

(** [conn.close()] *)
Definition conn_close (fd : nat) : M unit :=
  fun w => (Ret tt, emit (EvCloseConn fd) (set_socks (delete fd (socks w)) w)).

(** [time.sleep(seconds)] *)
Definition sleep (seconds : Q) : M unit :=
  fun w => (Ret tt, emit (EvSleep seconds) w).

(** [open(path, "w")]: creates the file or truncates it *)
Definition open_w (path : string) : M string :=
  fun w =>
    if decide (path ∈ denied w) then (Raise (IOError path), w)
    else (Ret path, emit (EvOpen path) (set_fs (<[path := ""]> (fs w)) w)).

(** [FILE.write(data)] *)
Definition file_write (path : string) (data : string) : M unit :=
  fun w =>
    (Ret tt,
     emit (EvWrite path data)
          (set_fs (<[path := default "" (fs w !! path) ++ data]> (fs w)) w)).

(** [FILE.close()] *)
Definition file_close (path : string) : M unit :=
  fun w => (Ret tt, emit (EvCloseFile path) w).

(** ** The script *)

(** The [while True] of [read_tcp]; [spins] bounds its iterations. *)
Fixpoint read_tcp_loop (spins : nat) (conn : nat) (read_delay : Q) : M string :=
  match spins with
  | O => hang
  | S spins' =>
      try_except
        (data <- recv conn BUFSIZE ;;
         ret data)
        is_socket_error
        (fun e =>
           if decide (exn_errno e = Some EAGAIN) then
             read_tcp_loop spins' conn read_delay
           else
             raise e)
  end.

(** [read_delay] is a parameter of the function; its body does not
    mention it. *)
Definition read_tcp (spins : nat) (conn : nat) (read_delay : Q) : M string :=
  print "read data from client" ;;;
  read_tcp_loop spins conn read_delay.

(** [serv] is the listening socket of the world; [spins] is handed to
    [read_tcp]. *)
Definition run_server (spins : nat) (opts : options) : M unit :=
  conn <- accept ;;
  print "client connected" ;;;
  data <- read_tcp spins conn (delay opts) ;;
  FILE <- open_w (datafile opts) ;;
  file_write FILE data ;;;
  print ("Write: " ++ data) ;;;
  file_close FILE ;;;
  try_except
    (print "closing connection" ;;;
     conn_close conn)
    is_Exception
    (fun e => raise e).

(** The [while(1)] at the end of the script; [iters] bounds its
    iterations. *)
Fixpoint main_loop (iters spins : nat) (opts : options) : M unit :=
  match iters with
  | O => hang
  | S iters' =>
      run_server spins opts ;;;
      if single opts then ret tt
      else main_loop iters' spins opts
  end.

(** The script from the creation of the socket on. *)
Definition serve (iters spins : nat) (opts : options) : M unit :=
  let portnum := port opts in
  let timeout := timeout opts in
  socket_create ;;;
  setsockopt_reuseaddr ;;;
  sock_bind portnum ;;;
  print "listening" ;;;
  sock_listen 5 ;;;
  print "ready for connections" ;;;
  (if decide (timeout ≠ 0%Z) then settimeout timeout else ret tt) ;;;
  main_loop iters spins opts.

(** ** The command line

    [parseArgs] declares the options; [parse_args] models what the
    library's [ArgumentParser.parse_args] does with them.  The model is
    three-valued: a command line is accepted ([Parsed]), makes the
    library leave the process ([Exits]: status 2 after an error, 0 after
    the help screen), or uses a form the model does not cover
    ([Unmodelled]: a [--] token, a number written otherwise than in
    plain decimal notation). *)

Inductive argtype : Type := type_str | type_int | type_float.

Inductive action : Type :=
| store (type : argtype)
| store_true
| help_action.

Inductive value : Type :=
| VNone
| VStr (s : string)
| VBool (b : bool)
| VInt (n : Z)
| VFloat (q : Q).

Record argument : Type := Argument {
  short_flag : string;
  long_flag : string;
  dest : string;
  act : action;
  required : bool;
  default_value : value
}.

(** The parser built at lines 37 to 43; [ArgumentParser] itself adds
    [-h/--help]. *)
Definition parser : list argument :=
  [ Argument "-h" "--help" "help" help_action false VNone;
    Argument "-f" "--datafile" "datafile" (store type_str) true VNone;
    Argument "-s" "--single" "single" store_true false (VBool false);
    Argument "-p" "--port" "port" (store type_int) false (VInt 40000);
    Argument "-t" "--timeout" "timeout" (store type_int) false (VInt DEFAULT_TIMEOUT);
    Argument "-d" "--delay" "delay" (store type_float) false (VFloat DEFAULT_DELAY) ].

Definition is_digit (c : ascii) : bool :=
  let n := N_of_ascii c in (48 <=? n)%N && (n <=? 57)%N.

Fixpoint all_digits (s : string) : bool :=
  match s with
  | EmptyString => true
  | String c s' => is_digit c && all_digits s'
  end.

Fixpoint read_digits (acc : Z) (s : string) : Z :=
  match s with
  | EmptyString => acc
  | String c s' => read_digits (10 * acc + (Z.of_N (N_of_ascii c) - 48)) s'
  end.

(** [s.split(c, 1)] when [c] occurs in [s] *)
Fixpoint split_at (c : ascii) (s : string) : option (string * string) :=
  match s with
  | EmptyString => None
  | String a s' =>
      if decide (a = c) then Some (EmptyString, s')
      else match split_at c s' with
           | Some (l, r) => Some (String a l, r)
           | None => None
           end
  end.

Definition nonempty (s : string) : bool :=
  match s with EmptyString => false | _ => true end.

(** [int(s)] on an optional sign and decimal digits *)
Definition py_int (s : string) : option Z :=
  let unsigned d := if nonempty d && all_digits d then Some (read_digits 0 d) else None in
  match s with
  | String "-" d => Z.opp <$> unsigned d
  | String "+" d => unsigned d
  | _ => unsigned s
  end.

(** [float(s)] on an optional sign, decimal digits and an optional
    fraction *)
Definition py_float (s : string) : option Q :=
  let unsigned d :=
    match split_at "." d with
    | None =>
        if nonempty d && all_digits d then Some (inject_Z (read_digits 0 d)) else None
    | Some (i, f) =>
        if (nonempty i || nonempty f) && all_digits i && all_digits f then
          Some (Qmake (read_digits 0 (i ++ f)) (Z.to_pos (10 ^ Z.of_nat (String.length f))))
        else None
    end in
  match s with
  | String "-" d => Qopp <$> unsigned d
  | String "+" d => unsigned d
  | _ => unsigned s
  end.

Inductive parse_result : Type :=
| Parsed (opts : options)
| Exits (status : Z)
| Unmodelled.

(** How the library reads one token of the command line. *)
Inductive token_class : Type :=
| TOpt (a : argument) (flag : string) (explicit : option string)
| TUnknown        (* looks like an option, is none *)
| TArg            (* a value *)
| TAmbiguous.     (* abbreviates several options *)

Definition flags_of (ps : list argument) : list (string * argument) :=
  flat_map (fun a => [(short_flag a, a); (long_flag a, a)]) ps.

Definition find_flag (ps : list argument) (t : string) : option argument :=
  snd <$> List.find (fun fa => bool_decide (fst fa = t)) (flags_of ps).

Definition is_short (flag : string) : bool :=
  match flag with
  | String _ (String c _) => negb (bool_decide (c = "-"%char))
  | _ => false
  end.

Fixpoint contains (c : ascii) (s : string) : bool :=
  match s with
  | EmptyString => false
  | String a s' => bool_decide (a = c) || contains c s'
  end.

(** [_negative_number_matcher]: [^-\d+$|^-\d*\.\d+$] *)
Definition looks_negative_number (t : string) : bool :=
  match t with
  | String "-" r =>
      (nonempty r && all_digits r)
      || match split_at "." r with
         | Some (i, f) => all_digits i && nonempty f && all_digits f
         | None => false
         end
  | _ => false
  end.

(** [_get_option_tuples]: the options a token may abbreviate *)
Definition option_tuples (ps : list argument) (t : string)
  : list (argument * string * option string) :=
  match t with
  | String "-" (String "-" _) =>
      let '(pre, explicit) :=
        match split_at "=" t with
        | Some (l, r) => (l, Some r)
        | None => (t, None)
        end in
      omap (fun fa => if String.prefix pre (fst fa)
                      then Some (snd fa, fst fa, explicit) else None)
           (flags_of ps)
  | String "-" (String c rest) =>
      let short := String "-" (String c EmptyString) in
      omap (fun fa => if bool_decide (fst fa = short) then Some (snd fa, fst fa, Some rest)
                      else if String.prefix t (fst fa) then Some (snd fa, fst fa, None)
                      else None)
           (flags_of ps)
  | _ => []
  end.

(** [_parse_optional] *)
Definition parse_optional (ps : list argument) (t : string) : token_class :=
  match t with
  | String "-" r =>
      match find_flag ps t with
      | Some a => TOpt a t None
      | None =>
          if negb (nonempty r) then TArg
          else
            let by_eq :=
              match split_at "=" t with
              | Some (l, e) => (fun a => TOpt a l (Some e)) <$> find_flag ps l
              | None => None
              end in
            match by_eq with
            | Some k => k
            | None =>
                match option_tuples ps t with
                | _ :: _ :: _ => TAmbiguous
                | [(a, f, e)] => TOpt a f e
                | [] =>
                    if looks_negative_number t then TArg
                    else if contains " " t then TArg
                    else TUnknown
                end
            end
      end
  | _ => TArg
  end.

(** A short flag that takes no value may be followed by more short
    options in the same token ([-sf]); the walk stops at the option that
    ends the token. *)
Inductive cluster_result : Type :=
| CDone (flags : list argument) (last : argument) (explicit : option string)
| CError
| CUnmodelled.

Fixpoint cluster (ps : list argument) (a : argument) (flag : string) (e : string)
  {struct e} : cluster_result :=
  match act a with
  | store _ => CDone [] a (Some e)
  | _ =>
      if is_short flag then
        match e with
        | EmptyString => CUnmodelled
        | String c e' =>
            let flag' := String "-" (String c EmptyString) in
            match find_flag ps flag' with
            | None => CError
            | Some a' =>
                match
                  (if nonempty e' then cluster ps a' flag' e' else CDone [] a' None)
                with
                | CDone fl l x => CDone (a :: fl) l x
                | r => r
                end
            end
        end
      else CError
  end.

Definition namespace : Type := gmap string value.

(** What taking the actions of one option does. *)
Inductive taken : Type :=
| Took (ns : namespace)
| TookExit (status : Z)
| TookUnmodelled.

Definition convert (ty : argtype) (raw : string) : option value :=
  match ty with
  | type_str => Some (VStr raw)
  | type_int => VInt <$> py_int raw
  | type_float => VFloat <$> py_float raw
  end.

Fixpoint take_flags (flags : list argument) (ns : namespace) : taken :=
  match flags with
  | [] => Took ns
  | a :: rest =>
      match act a with
      | help_action => TookExit 0
      | _ => take_flags rest (<[dest a := VBool true]> ns)
      end
  end.

Definition take_action (a : argument) (raw : option string) (ns : namespace) : taken :=
  match act a, raw with
  | help_action, _ => TookExit 0
  | store_true, _ => Took (<[dest a := VBool true]> ns)
  | store ty, Some r =>
      match convert ty r with
      | Some v => Took (<[dest a := v]> ns)
      | None => TookUnmodelled
      end
  | store _, None => TookExit 2
  end.

(** One option met on the command line, with the token after it. *)
Inductive step_result : Type :=
| Next (ns : namespace) (seen : gset string) (used_next : bool)
| Stop (r : parse_result).

Definition consume_optional (ps : list argument) (a : argument) (flag : string)
    (explicit : option string) (next : option string)
    (ns : namespace) (seen : gset string) : step_result :=
  match (match explicit with
         | Some e => cluster ps a flag e
         | None => CDone [] a None
         end) with
  | CError => Stop (Exits 2)
  | CUnmodelled => Stop Unmodelled
  | CDone flags last x =>
      let raw :=
        match act last, x, next with
        | store _, None, Some v =>
            match parse_optional ps v with
            | TArg => (Some v, true)
            | _ => (None, false)
            end
        | _, _, _ => (x, false)
        end in
      match act last, fst raw with
      | store _, None => Stop (Exits 2)
      | _, _ =>
          match take_flags flags ns with
          | TookExit s => Stop (Exits s)
          | TookUnmodelled => Stop Unmodelled
          | Took ns1 =>
              match take_action last (fst raw) ns1 with
              | TookExit s => Stop (Exits s)
              | TookUnmodelled => Stop Unmodelled
              | Took ns2 =>
                  Next ns2 (seen ∪ list_to_set (dest <$> flags) ∪ {[dest last]}) (snd raw)
              end
          end
      end
  end.

Definition as_str (v : option value) : option string :=
  match v with Some (VStr s) => Some s | _ => None end.
Definition as_bool (v : option value) : option bool :=
  match v with Some (VBool b) => Some b | _ => None end.
Definition as_int (v : option value) : option Z :=
  match v with Some (VInt n) => Some n | _ => None end.
Definition as_float (v : option value) : option Q :=
  match v with Some (VFloat q) => Some q | Some (VInt n) => Some (inject_Z n) | _ => None end.

(** The attributes the script reads from the namespace. *)
Definition namespace_options (ns : namespace) : option options :=
  f ← as_str (ns !! "datafile");
  s ← as_bool (ns !! "single");
  p ← as_int (ns !! "port");
  t ← as_int (ns !! "timeout");
  d ← as_float (ns !! "delay");
  Some (Options f s p t d).

Definition finish (ps : list argument) (ns : namespace) (seen : gset string)
    (extras : bool) : parse_result :=
  if existsb (fun a => required a && negb (bool_decide (dest a ∈ seen))) ps then Exits 2
  else if extras then Exits 2
  else match namespace_options ns with
       | Some o => Parsed o
       | None => Unmodelled
       end.

Fixpoint consume (ps : list argument) (ts : list string)
    (ns : namespace) (seen : gset string) (extras : bool) : parse_result :=
  match ts with
  | [] => finish ps ns seen extras
  | t :: rest =>
      match parse_optional ps t with
      | TOpt a flag e =>
          match consume_optional ps a flag e (head rest) ns seen with
          | Stop r => r
          | Next ns' seen' false => consume ps rest ns' seen' extras
          | Next ns' seen' true =>
              match rest with
              | _ :: rest' => consume ps rest' ns' seen' extras
              | [] => Exits 2
              end
          end
      | TAmbiguous => Exits 2
      | TArg | TUnknown => consume ps rest ns seen true
      end
  end.

Definition defaults (ps : list argument) : namespace :=
  foldr (fun a ns => match act a with
                     | help_action => ns
                     | _ => <[dest a := default_value a]> ns
                     end) ∅ ps.

Definition outside_model (t : string) : bool :=
  bool_decide (t = "--")
  || (String.prefix "-" t && contains "010"%char t).

Definition parse_args (ps : list argument) (argv : list string) : parse_result :=
  if existsb outside_model argv then Unmodelled
  else if existsb (fun t => match parse_optional ps t with
                            | TAmbiguous => true
                            | _ => false
                            end) argv then Exits 2
  else consume ps argv (defaults ps) ∅ false.

Definition parseArgs (argv : list string) : parse_result :=
  parse_args parser argv.

(** * Vocabulary of the statements

    Worlds reached by the script, projections of the log, and the
    concrete inputs the statements are tried on. *)

Definition recv_failed (fd : nat) (e : Z) : event := EvRecv fd BUFSIZE (Failed e).

(** The world after [recv] has raised the errors [es] on [fd], one call
    after the other, and left the socket as [c]. *)
Definition spun (fd : nat) (es : list Z) (c : conn) (w : world) : world :=
  World (pending w) (<[fd := c]> (socks w)) (next_fd w) (listen_timeout w)
        (busy_ports w) (fs w) (denied w) (log w ++ (recv_failed fd <$> es)).

(** The world after a [recv] on [fd] that returned the head of [b]. *)
Definition drained (fd : nat) (b : string) (w : world) : world :=
  World (pending w) (<[fd := Conn [] (str_drop (Z.to_nat BUFSIZE) b)]> (socks w))
        (next_fd w) (listen_timeout w) (busy_ports w) (fs w) (denied w)
        (log w ++ [EvRecv fd BUFSIZE (Got (str_take (Z.to_nat BUFSIZE) b))]).

(** A connection [read_tcp] returns from: its pending errors are all
    would-block errors, fewer than the iterations allowed. *)
Definition good (spins : nat) (c : conn) : Prop :=
  Forall (fun e => e = EAGAIN) (faults c) /\ length (faults c) < spins.

(** What one [recv] of [BUFSIZE] bytes captures from the connection. *)
Definition payload (c : conn) : string :=
  str_take (Z.to_nat BUFSIZE) (rxbuf c).

Definition served_log (path : string) (fd : nat) (c : conn) : list event :=
  [EvAccept fd; EvPrint "client connected"; EvPrint "read data from client"]
  ++ (recv_failed fd <$> faults c)
  ++ [EvRecv fd BUFSIZE (Got (payload c));
      EvOpen path;
      EvWrite path (payload c);
      EvPrint ("Write: " ++ payload c);
      EvCloseFile path;
      EvPrint "closing connection";
      EvCloseConn fd].

(** The world after [run_server] has served the connection [c]. *)
Definition served (opts : options) (c : conn) (w : world) : world :=
  World (tail (pending w)) (delete (next_fd w) (socks w)) (S (next_fd w))
        (listen_timeout w) (busy_ports w)
        (<[datafile opts := payload c]> (fs w)) (denied w)
        (log w ++ served_log (datafile opts) (next_fd w) c).

(** The world [read_tcp] starts in: the client accepted, the first
    message printed. *)
Definition accepted (c : conn) (w : world) : world :=
  emit (EvPrint "client connected")
       (emit (EvAccept (next_fd w)) (take_pending (tail (pending w)) (next_fd w) c w)).

Definition client_world (cs : list conn) (files : gmap string string) : world :=
  World cs ∅ 4 (Some 30%Z) ∅ files ∅ [].

Definition default_opts (path : string) : options :=
  Options path false DEFAULT_PORT DEFAULT_TIMEOUT DEFAULT_DELAY.

(** A client that sends five bytes, met by two would-block errors, and
    a client that closes at once; the output file has old content. *)
Definition hello_world : world :=
  client_world [Conn [EAGAIN; EAGAIN] "hello"] {["out.txt" := "stale"]}.

Definition silent_world : world :=
  client_world [Conn [] ""] {["out.txt" := "stale"]}.

(** The [recv] calls of a log that returned data. *)
Definition is_successful_recv (ev : event) : bool :=
  match ev with
  | EvRecv _ _ (Got _) => true
  | _ => false
  end.

Definition successful_recvs (evs : list event) : nat :=
  length (filter (fun ev => is_successful_recv ev = true) evs).

Fixpoint str_repeat (c : ascii) (n : nat) : string :=
  match n with
  | O => EmptyString
  | S n' => String c (str_repeat c n')
  end.

(** A socket with 1500 bytes buffered behind one would-block error. *)
Definition long_world : world :=
  World [] {[4 := Conn [EAGAIN] (str_repeat "a" 1500)]} 5 (Some 30%Z) ∅ ∅ ∅ [].

(** The file operations of a log. *)
Definition is_file_event (ev : event) : bool :=
  match ev with
  | EvOpen _ | EvWrite _ _ | EvCloseFile _ => true
  | _ => false
  end.

Definition file_events (evs : list event) : list event :=
  filter (fun ev => is_file_event ev = true) evs.

(** [errno.ECONNRESET] on Linux *)
Definition ECONNRESET : Z := 104.

(** A client whose connection is reset after one would-block error. *)
Definition reset_world : world :=
  client_world [Conn [EAGAIN; ECONNRESET] "lost"] {["out.txt" := "stale"]}.

(** The world when the script enters its loop. *)
Definition listening (opts : options) (w : world) : world :=
  let w1 :=
    emit (EvPrint "ready for connections")
      (emit (EvListen 5)
         (emit (EvPrint "listening")
            (emit (EvBind (port opts))
               (emit EvReuseAddr (emit EvSocket (set_listen_timeout None w)))))) in
  if decide (timeout opts ≠ 0%Z)
  then emit (EvSetTimeout (timeout opts)) (set_listen_timeout (Some (timeout opts)) w1)
  else w1.

(** The world after the clients [cs] have been served one after the
    other. *)
Definition served_all (opts : options) (cs : list conn) (w : world) : world :=
  foldl (fun w c => served opts c w) w cs.

Definition is_accept (ev : event) : bool :=
  match ev with
  | EvAccept _ => true
  | _ => false
  end.

Definition accepts (evs : list event) : nat :=
  length (filter (fun ev => is_accept ev = true) evs).

Definition three_clients : list conn :=
  [Conn [EAGAIN] "one"; Conn [] "two"; Conn [EAGAIN; EAGAIN] "three"].


Definition stale_world : world :=
  client_world three_clients {["out.txt" := "stale"]}.

(** The lines the script printed. *)
Definition printed (evs : list event) : list string :=
  omap (fun ev => match ev with EvPrint l => Some l | _ => None end) evs.

(** A run with a delay of two seconds and a half configured. *)
Definition delayed_opts : options := Options "out.txt" false 40000 30 2.5%Q.

(** The two spellings the header of the script documents for the
    console option. *)
Definition stdout_flag (t : string) : Prop := t = "-o" \/ t = "--stdout".

(** The events up to and including the read of the connection [c]
    accepted as [fd], when [recv] raised the errors [es] first and then
    came back with [r]. *)
Definition read_log (fd : nat) (es : list Z) (r : recv_result) : list event :=
  [EvAccept fd; EvPrint "client connected"; EvPrint "read data from client"]
  ++ (recv_failed fd <$> es)
  ++ [EvRecv fd BUFSIZE r].

(** The world after [read_tcp] has returned from the connection [c] just
    accepted: the socket is open, what [recv] did not take is in it. *)
Definition read_done (c : conn) (w : world) : world :=
  World (tail (pending w))
        (<[next_fd w := Conn [] (str_drop (Z.to_nat BUFSIZE) (rxbuf c))]> (socks w))
        (S (next_fd w)) (listen_timeout w) (busy_ports w) (fs w) (denied w)
        (log w ++ read_log (next_fd w) (faults c) (Got (payload c))).

(** The world after [recv] has raised the would-block errors [es] and
    then the error [e] on the connection just accepted, whose buffer is
    [b] and whose later errors are [tl]. *)
Definition read_failed (es : list Z) (e : Z) (tl : list Z) (b : string)
    (w : world) : world :=
  World (tail (pending w)) (<[next_fd w := Conn tl b]> (socks w))
        (S (next_fd w)) (listen_timeout w) (busy_ports w) (fs w) (denied w)
        (log w ++ read_log (next_fd w) es (Failed e)).

(** The world after the new socket has been given its option, before
    [bind]. *)
Definition unbound (w : world) : world :=
  emit EvReuseAddr (emit EvSocket (set_listen_timeout None w)).

(** The world after [listen], before the timeout is looked at. *)
Definition ready (opts : options) (w : world) : world :=
  emit (EvPrint "ready for connections")
    (emit (EvListen 5)
       (emit (EvPrint "listening")
          (emit (EvBind (port opts)) (unbound w)))).


(** A client that writes the pieces [pieces] one after the other and
    then closes its side has sent [sent pieces].  When a [recv] is
    served after the first [k] pieces have arrived, the receive buffer
    holds [arrived k pieces]. *)
Definition sent (pieces : list string) : string :=
  foldr String.append "" pieces.

Definition arrived (k : nat) (pieces : list string) : string :=
  sent (take k pieces).

(** * Properties *)

(** ** Byte strings *)

Lemma str_take_length n s : String.length (str_take n s) <= n.
Proof.
  revert s; induction n as [|n IH]; intros [|c s]; simpl; try lia.
  specialize (IH s); lia.
Qed.

Lemma str_take_all n s : String.length s <= n -> str_take n s = s.
Proof.
  revert s; induction n as [|n IH]; intros [|c s]; simpl; intros H;
    try reflexivity; try lia.
  f_equal; apply IH; lia.
Qed.


Lemma str_drop_all n s : String.length s <= n -> str_drop n s = "".
Proof.
  revert s; induction n as [|n IH]; intros [|c s]; simpl; intros H;
    try reflexivity; try lia.
  apply IH; lia.
Qed.

(** ** One [recv] call *)

Section Recv.
Variables (fd : nat) (w : world).

Lemma recv_fault e rest b :
  socks w !! fd = Some (Conn (e :: rest) b) ->
  recv fd BUFSIZE w =
    (Raise (socket_error e),
     emit (EvRecv fd BUFSIZE (Failed e))
          (set_socks (<[fd := Conn rest b]> (socks w)) w)).
Proof. intros H. unfold recv. rewrite H. reflexivity. Qed.

Lemma recv_data b :
  socks w !! fd = Some (Conn [] b) ->
  recv fd BUFSIZE w =
    (Ret (str_take (Z.to_nat BUFSIZE) b),
     emit (EvRecv fd BUFSIZE (Got (str_take (Z.to_nat BUFSIZE) b)))
          (set_socks (<[fd := Conn [] (str_drop (Z.to_nat BUFSIZE) b)]> (socks w)) w)).
Proof. intros H. unfold recv. rewrite H. reflexivity. Qed.

Lemma recv_closed :
  socks w !! fd = None ->
  recv fd BUFSIZE w = (Raise (socket_error EBADF), w).
Proof. intros H. unfold recv. rewrite H. reflexivity. Qed.
End Recv.

(** ** The read loop *)

Lemma world_eq w1 w2 :
  pending w1 = pending w2 -> socks w1 = socks w2 -> next_fd w1 = next_fd w2 ->
  listen_timeout w1 = listen_timeout w2 -> busy_ports w1 = busy_ports w2 ->
  fs w1 = fs w2 -> denied w1 = denied w2 -> log w1 = log w2 ->
  w1 = w2.
Proof. destruct w1, w2; simpl; intros; subst; reflexivity. Qed.

Lemma spun_nil fd c w : socks w !! fd = Some c -> spun fd [] c w = w.
Proof.
  intros H. destruct w; unfold spun; simpl in *.
  rewrite insert_id by assumption. by rewrite app_nil_r.
Qed.

Lemma spun_spun fd es1 es2 c1 c2 w :
  spun fd es2 c2 (spun fd es1 c1 w) = spun fd (es1 ++ es2) c2 w.
Proof.
  unfold spun; simpl. rewrite insert_insert_eq, fmap_app, app_assoc. reflexivity.
Qed.

Section ReadLoop.
Variables (fd : nat) (read_delay : Q).

Lemma read_tcp_loop_would_block n w rest b :
  socks w !! fd = Some (Conn (EAGAIN :: rest) b) ->
  read_tcp_loop (S n) fd read_delay w =
    read_tcp_loop n fd read_delay (spun fd [EAGAIN] (Conn rest b) w).
Proof.
  intros H. cbn [read_tcp_loop]. unfold try_except, bind.
  rewrite (recv_fault _ _ _ _ _ H). cbn [is_socket_error exn_errno].
  rewrite decide_True by reflexivity. reflexivity.
Qed.

Lemma read_tcp_loop_fatal n w e rest b :
  socks w !! fd = Some (Conn (e :: rest) b) ->
  e <> EAGAIN ->
  read_tcp_loop (S n) fd read_delay w =
    (Raise (socket_error e), spun fd [e] (Conn rest b) w).
Proof.
  intros H He. cbn [read_tcp_loop]. unfold try_except, bind.
  rewrite (recv_fault _ _ _ _ _ H). cbn [is_socket_error exn_errno].
  rewrite decide_False by congruence. reflexivity.
Qed.

Lemma read_tcp_loop_data n w b :
  socks w !! fd = Some (Conn [] b) ->
  read_tcp_loop (S n) fd read_delay w =
    (Ret (str_take (Z.to_nat BUFSIZE) b), drained fd b w).
Proof.
  intros H. simpl. unfold try_except, bind.
  rewrite (recv_data _ _ _ H). reflexivity.
Qed.

Lemma read_tcp_loop_closed n w :
  socks w !! fd = None ->
  read_tcp_loop (S n) fd read_delay w = (Raise (socket_error EBADF), w).
Proof.
  intros H. simpl. unfold try_except, bind.
  rewrite (recv_closed _ _ H). simpl.
  destruct (decide (Some EBADF = Some EAGAIN)) as [E|E]; [discriminate E|reflexivity].
Qed.

(** Would-block errors are retried, one [recv] after the other. *)
Lemma read_tcp_loop_spin es : forall n w tail b,
  Forall (fun e => e = EAGAIN) es ->
  socks w !! fd = Some (Conn (es ++ tail) b) ->
  read_tcp_loop (length es + n) fd read_delay w =
    read_tcp_loop n fd read_delay (spun fd es (Conn tail b) w).
Proof.
  induction es as [|e es IH]; intros n w tail b Hes H.
  - simpl. by rewrite spun_nil.
  - inversion Hes as [|? ? He Hes']; subst.
    change (length (EAGAIN :: es) + n) with (S (length es + n)).
    rewrite (read_tcp_loop_would_block _ _ (es ++ tail) b) by exact H.
    rewrite (IH n _ tail b Hes').
    + by rewrite spun_spun.
    + simpl. apply lookup_insert_eq.
Qed.

(** The loop returns only from a socket whose pending errors are all
    would-block errors, fewer than the iterations allowed. *)
Lemma read_tcp_loop_ret_inv spins : forall w data w',
  read_tcp_loop spins fd read_delay w = (Ret data, w') ->
  exists c, socks w !! fd = Some c
            /\ Forall (fun e => e = EAGAIN) (faults c)
            /\ length (faults c) < spins.
Proof.
  induction spins as [|spins IH]; intros w data w' H; [discriminate H|].
  destruct (socks w !! fd) as [[es b]|] eqn:Hc.
  - destruct es as [|e es].
    + exists (Conn [] b); simpl; repeat split; [constructor | lia].
    + destruct (decide (e = EAGAIN)) as [->|He].
      * rewrite (read_tcp_loop_would_block _ _ _ _ Hc) in H.
        apply IH in H as (c & Hc' & Hall & Hlen).
        simpl in Hc'. rewrite lookup_insert_eq in Hc'. injection Hc' as <-.
        exists (Conn (EAGAIN :: es) b); simpl in *; repeat split;
          [constructor; auto | lia].
      * rewrite (read_tcp_loop_fatal _ _ _ _ _ Hc He) in H. discriminate H.
  - rewrite (read_tcp_loop_closed _ _ Hc) in H. discriminate H.
Qed.
End ReadLoop.

(** ** One connection *)

Lemma run_server_served spins opts w c rest :
  pending w = c :: rest ->
  good spins c ->
  datafile opts ∉ denied w ->
  run_server spins opts w = (Ret tt, served opts c w).
Proof.
  intros Hp [Hall Hlen] Hden.
  destruct c as [es b]; simpl in Hall, Hlen.
  unfold run_server, bind at 1. unfold accept. rewrite Hp.
  unfold bind at 1, print at 1.
  unfold bind at 1, read_tcp, bind at 1, print at 1.
  replace spins with (length es + S (spins - S (length es))) by lia.
  rewrite (read_tcp_loop_spin _ _ es _ _ [] b Hall)
    by (simpl; rewrite app_nil_r; apply lookup_insert_eq).
  rewrite (read_tcp_loop_data _ _ _ _ b) by (simpl; apply lookup_insert_eq).
  unfold bind at 1, open_w. rewrite decide_False by exact Hden.
  unfold bind, file_write, print, file_close, try_except, conn_close.
  f_equal. apply world_eq;
    cbn [emit set_fs set_socks spun drained take_pending served
         pending socks next_fd listen_timeout busy_ports fs denied log];
    try reflexivity.
  - by rewrite Hp.
  - rewrite !insert_insert_eq. rewrite delete_insert_eq. reflexivity.
  - rewrite lookup_insert_eq, insert_insert_eq. reflexivity.
  - unfold served_log, payload. cbn [faults rxbuf fmap].
    rewrite <- !app_assoc. reflexivity.
Qed.

Lemma run_server_accepted spins opts w c rest :
  pending w = c :: rest ->
  run_server spins opts w =
    (data <- read_tcp spins (next_fd w) (delay opts) ;;
     FILE <- open_w (datafile opts) ;;
     file_write FILE data ;;;
     print ("Write: " ++ data) ;;;
     file_close FILE ;;;
     try_except
       (print "closing connection" ;;;
        conn_close (next_fd w))
       is_Exception
       (fun e => raise e)) (accepted c w).
Proof.
  intros Hp. unfold run_server, accepted, bind at 1, accept. rewrite Hp.
  unfold bind at 1, print at 1. reflexivity.
Qed.

(** Whatever the loop ends with, it has only called [recv] on its own
    socket and has touched nothing else. *)
Lemma read_tcp_loop_frame fd read_delay spins : forall w r w',
  read_tcp_loop spins fd read_delay w = (r, w') ->
  pending w' = pending w /\ fs w' = fs w /\ denied w' = denied w
  /\ listen_timeout w' = listen_timeout w /\ next_fd w' = next_fd w
  /\ busy_ports w' = busy_ports w
  /\ exists rs, log w' = (log w ++ (EvRecv fd BUFSIZE <$> rs))%list.
Proof.
  induction spins as [|spins IH]; intros w r w' H.
  - injection H as <- <-. repeat split; try reflexivity.
    exists []. simpl. by rewrite app_nil_r.
  - destruct (socks w !! fd) as [[es b]|] eqn:Hc.
    + destruct es as [|e es].
      * rewrite (read_tcp_loop_data _ _ _ _ _ Hc) in H. injection H as <- <-.
        repeat split; try reflexivity. by eexists [_].
      * destruct (decide (e = EAGAIN)) as [->|He].
        -- rewrite (read_tcp_loop_would_block _ _ _ _ _ _ Hc) in H.
           apply IH in H as (-> & -> & -> & -> & -> & -> & rs & ->).
           repeat split; try reflexivity.
           exists (Failed EAGAIN :: rs). simpl. by rewrite <- app_assoc.
        -- rewrite (read_tcp_loop_fatal _ _ _ _ _ _ _ Hc He) in H.
           injection H as <- <-. repeat split; try reflexivity. by eexists [_].
    + rewrite (read_tcp_loop_closed _ _ _ _ Hc) in H. injection H as <- <-.
      repeat split; try reflexivity. exists []. simpl. by rewrite app_nil_r.
Qed.

(** [run_server] returns only after it has served a good connection,
    and then the world is [served]. *)
Lemma run_server_ret_inv spins opts w w' :
  run_server spins opts w = (Ret tt, w') ->
  exists c rest,
    pending w = c :: rest /\ good spins c /\ (datafile opts ∉ denied w)
    /\ w' = served opts c w.
Proof.
  intros H. destruct (pending w) as [|c rest] eqn:Hp.
  - unfold run_server, bind, accept in H. rewrite Hp in H.
    destruct (listen_timeout w); discriminate H.
  - assert (Hgood : good spins c).
    { rewrite (run_server_accepted _ _ _ _ _ Hp) in H.
      unfold bind at 1, read_tcp, bind at 1, print at 1 in H.
      destruct (read_tcp_loop _ _ _ _) as [[data| |] w1] eqn:Hr; try discriminate H.
      apply read_tcp_loop_ret_inv in Hr as (c' & Hc' & Hg).
      unfold accepted, emit, take_pending in Hc'; simpl in Hc'.
      rewrite lookup_insert_eq in Hc'. injection Hc' as <-. exact Hg. }
    destruct (decide (datafile opts ∈ denied w)) as [Hd|Hd].
    + exfalso. destruct c as [es b]. destruct Hgood as [Hall Hlen]; simpl in *.
      rewrite (run_server_accepted _ _ _ _ _ Hp) in H.
      unfold bind at 1, read_tcp, bind at 1, print at 1 in H.
      replace spins with (length es + S (spins - S (length es))) in H by lia.
      rewrite (read_tcp_loop_spin _ _ es _ _ [] b Hall) in H
        by (simpl; rewrite app_nil_r; apply lookup_insert_eq).
      rewrite (read_tcp_loop_data _ _ _ _ b) in H by (simpl; apply lookup_insert_eq).
      unfold bind at 1, open_w in H. rewrite decide_True in H by exact Hd.
      discriminate H.
    + exists c, rest.
      rewrite (run_server_served _ _ _ _ _ Hp Hgood Hd) in H. injection H as <-.
      auto.
Qed.

(** ** Claims about one connection *)

(** C1: when all of the byte sequence [B] a client sends, of at most
    1024 bytes, is in the receive buffer at the moment [recv] is served,
    and [recv] meets nothing but would-block errors before it serves the
    data, [run_server] returns, [read_tcp] has captured exactly [B], and
    the content of the output file is [B] byte for byte, whatever the
    file held before; [B] may be empty. *)
Theorem run_server_round_trip spins opts w c rest B :
  pending w = c :: rest ->
  rxbuf c = B ->
  String.length B <= 1024 ->
  good spins c ->
  datafile opts ∉ denied w ->
  run_server spins opts w = (Ret tt, served opts c w)
  /\ payload c = B
  /\ fs (served opts c w) !! datafile opts = Some B
  /\ EvWrite (datafile opts) B ∈ log (served opts c w).
Proof.
  intros Hp Hb Hlen Hgood Hden.
  assert (Hpay : payload c = B).
  { unfold payload. rewrite Hb. apply str_take_all.
    change (Z.to_nat BUFSIZE) with 1024. exact Hlen. }
  split; [by apply run_server_served with rest|].
  split; [exact Hpay|].
  unfold served; simpl. rewrite Hpay. split.
  - apply lookup_insert_eq.
  - unfold served_log. rewrite Hpay.
    rewrite !elem_of_app. right; right; right.
    repeat (first [apply list_elem_of_here | apply list_elem_of_further]).
Qed.

Lemma run_server_round_trip_witness :
  (run_server 3 (default_opts "out.txt") hello_world
   = (Ret tt, served (default_opts "out.txt") (Conn [EAGAIN; EAGAIN] "hello") hello_world)
   /\ payload (Conn [EAGAIN; EAGAIN] "hello") = "hello"
   /\ fs (served (default_opts "out.txt") (Conn [EAGAIN; EAGAIN] "hello") hello_world)
        !! "out.txt" = Some "hello"
   /\ EvWrite "out.txt" "hello"
        ∈ log (served (default_opts "out.txt") (Conn [EAGAIN; EAGAIN] "hello") hello_world))
  /\ (run_server 1 (default_opts "out.txt") silent_world
      = (Ret tt, served (default_opts "out.txt") (Conn [] "") silent_world)
      /\ payload (Conn [] "") = ""
      /\ fs (served (default_opts "out.txt") (Conn [] "") silent_world)
           !! "out.txt" = Some ""
      /\ EvWrite "out.txt" ""
           ∈ log (served (default_opts "out.txt") (Conn [] "") silent_world)).
Proof.
  split.
  - apply (run_server_round_trip 3 (default_opts "out.txt") hello_world
             (Conn [EAGAIN; EAGAIN] "hello") [] "hello").
    + reflexivity.
    + reflexivity.
    + simpl. lia.
    + split; [repeat constructor | simpl; lia].
    + simpl. apply not_elem_of_empty.
  - apply (run_server_round_trip 1 (default_opts "out.txt") silent_world
             (Conn [] "") [] "").
    + reflexivity.
    + reflexivity.
    + simpl. lia.
    + split; [constructor | simpl; lia].
    + simpl. apply not_elem_of_empty.
Defined.

(** C1 does not hold for every way the bytes may travel: [read_tcp]
    returns what the first successful [recv] gives.  A client sends
    ["hel"], then ["lo"], and closes: it has sent five bytes.  When
    [recv] is served after the first piece has arrived, [run_server]
    returns and the file holds ["hel"], not what the client sent. *)
Lemma round_trip_fails_on_partial_arrival :
  sent ["hel"; "lo"] = "hello"
  /\ String.length (sent ["hel"; "lo"]) <= 1024
  /\ arrived 1 ["hel"; "lo"] = "hel"
  /\ run_server 1 (default_opts "out.txt")
       (client_world [Conn [] (arrived 1 ["hel"; "lo"])] ∅)
     = (Ret tt,
        served (default_opts "out.txt") (Conn [] (arrived 1 ["hel"; "lo"]))
          (client_world [Conn [] (arrived 1 ["hel"; "lo"])] ∅))
  /\ fs (snd (run_server 1 (default_opts "out.txt")
                (client_world [Conn [] (arrived 1 ["hel"; "lo"])] ∅)))
       !! "out.txt" = Some "hel"
  /\ fs (snd (run_server 1 (default_opts "out.txt")
                (client_world [Conn [] (arrived 1 ["hel"; "lo"])] ∅)))
       !! "out.txt" <> Some (sent ["hel"; "lo"]).
Proof.
  split; [reflexivity|]. split; [simpl; lia|]. split; [reflexivity|].
  split; [by vm_compute|]. split; [by vm_compute|].
  vm_compute. discriminate.
Qed.

Lemma successful_recvs_app evs1 evs2 :
  successful_recvs (evs1 ++ evs2) = successful_recvs evs1 + successful_recvs evs2.
Proof. unfold successful_recvs. by rewrite filter_app, length_app. Qed.

Lemma successful_recvs_failed fd es : successful_recvs (recv_failed fd <$> es) = 0.
Proof. induction es as [|e es IH]; [reflexivity | exact IH]. Qed.

(** [read_tcp] on a socket whose pending errors are all would-block
    errors, fewer than the iterations allowed: it returns. *)
Lemma read_tcp_returns spins fd read_delay w c :
  socks w !! fd = Some c ->
  Forall (fun e => e = EAGAIN) (faults c) ->
  length (faults c) < spins ->
  read_tcp spins fd read_delay w
  = (Ret (str_take (Z.to_nat BUFSIZE) (rxbuf c)),
     drained fd (rxbuf c)
       (spun fd (faults c) (Conn [] (rxbuf c))
          (emit (EvPrint "read data from client") w))).
Proof.
  intros Hc Hall Hlen. destruct c as [es b]; cbn [faults rxbuf] in *.
  unfold read_tcp, bind at 1, print at 1.
  replace spins with (length es + S (spins - S (length es))) by lia.
  rewrite (read_tcp_loop_spin _ _ es _ _ [] b Hall)
    by (rewrite app_nil_r; exact Hc).
  by rewrite (read_tcp_loop_data _ _ _ _ b)
    by (cbn [spun socks]; apply lookup_insert_eq).
Qed.

(** C2: on every connection on which [recv] meets nothing but
    would-block errors, [read_tcp] returns, and what it returns is what
    one [recv] of [BUFSIZE] = 1024 bytes gave: the first 1024 bytes at
    most of what the socket had buffered.  That [recv] is the only
    successful one and the last thing [read_tcp] did; the rest of the
    buffer, however long, is still in the socket, unread.  On no other
    connection does [read_tcp] return. *)
Theorem read_tcp_single_bounded_read spins fd read_delay w c :
  socks w !! fd = Some c ->
  Forall (fun e => e = EAGAIN) (faults c) ->
  length (faults c) < spins ->
  (exists w',
      read_tcp spins fd read_delay w
      = (Ret (str_take (Z.to_nat BUFSIZE) (rxbuf c)), w')
      /\ BUFSIZE = 1024%Z
      /\ String.length (str_take (Z.to_nat BUFSIZE) (rxbuf c)) <= 1024
      /\ socks w' !! fd = Some (Conn [] (str_drop (Z.to_nat BUFSIZE) (rxbuf c)))
      /\ log w' = (log w ++ EvPrint "read data from client"
                     :: (recv_failed fd <$> faults c)
                     ++ [EvRecv fd BUFSIZE (Got (str_take (Z.to_nat BUFSIZE) (rxbuf c)))])%list
      /\ successful_recvs (log w') = S (successful_recvs (log w)))
  /\ (forall spins0 w0 data0 w0',
        read_tcp spins0 fd read_delay w0 = (Ret data0, w0') ->
        exists c0,
          socks w0 !! fd = Some c0
          /\ Forall (fun e => e = EAGAIN) (faults c0)
          /\ length (faults c0) < spins0
          /\ data0 = str_take (Z.to_nat BUFSIZE) (rxbuf c0)).
Proof.
  intros Hc Hall Hlen. split.
  - eexists. split; [by apply read_tcp_returns|].
    split; [reflexivity|].
    split; [exact (str_take_length (Z.to_nat BUFSIZE) (rxbuf c))|].
    split; [cbn [drained socks]; apply lookup_insert_eq|].
    assert (Hlog : log (drained fd (rxbuf c)
                          (spun fd (faults c) (Conn [] (rxbuf c))
                             (emit (EvPrint "read data from client") w)))
                   = (log w ++ [EvPrint "read data from client"]
                        ++ (recv_failed fd <$> faults c)
                        ++ [EvRecv fd BUFSIZE
                              (Got (str_take (Z.to_nat BUFSIZE) (rxbuf c)))])%list).
    { cbn [drained spun emit log]. rewrite <- !app_assoc. reflexivity. }
    split; [exact Hlog|].
    rewrite Hlog, !successful_recvs_app, successful_recvs_failed.
    unfold successful_recvs at 2 3. cbn [filter length].
    reflexivity || (simpl; lia).
  - intros spins0 w0 data0 w0' H.
    assert (H' := H). unfold read_tcp, bind at 1, print at 1 in H'.
    apply read_tcp_loop_ret_inv in H' as (c0 & Hc0 & Hall0 & Hlen0).
    cbn [emit socks] in Hc0.
    exists c0. repeat split; try assumption.
    rewrite (read_tcp_returns _ _ _ _ _ Hc0 Hall0 Hlen0) in H.
    by injection H as <- _.
Qed.

Lemma read_tcp_single_bounded_read_witness :
  (exists w',
      read_tcp 2 4 0%Q long_world
      = (Ret (str_take (Z.to_nat BUFSIZE) (rxbuf (Conn [EAGAIN] (str_repeat "a" 1500)))), w')
      /\ BUFSIZE = 1024%Z
      /\ String.length
           (str_take (Z.to_nat BUFSIZE) (rxbuf (Conn [EAGAIN] (str_repeat "a" 1500))))
         <= 1024
      /\ socks w' !! 4
         = Some (Conn [] (str_drop (Z.to_nat BUFSIZE)
                            (rxbuf (Conn [EAGAIN] (str_repeat "a" 1500)))))
      /\ log w' = (log long_world ++ EvPrint "read data from client"
                     :: (recv_failed 4 <$> faults (Conn [EAGAIN] (str_repeat "a" 1500)))
                     ++ [EvRecv 4 BUFSIZE
                           (Got (str_take (Z.to_nat BUFSIZE)
                                   (rxbuf (Conn [EAGAIN] (str_repeat "a" 1500)))))])%list
      /\ successful_recvs (log w') = S (successful_recvs (log long_world)))
  /\ (forall spins0 w0 data0 w0',
        read_tcp spins0 4 0%Q w0 = (Ret data0, w0') ->
        exists c0,
          socks w0 !! 4 = Some c0
          /\ Forall (fun e => e = EAGAIN) (faults c0)
          /\ length (faults c0) < spins0
          /\ data0 = str_take (Z.to_nat BUFSIZE) (rxbuf c0)).
Proof.
  apply (read_tcp_single_bounded_read 2 4 0%Q long_world
           (Conn [EAGAIN] (str_repeat "a" 1500))).
  - reflexivity.
  - repeat constructor.
  - simpl. lia.
Defined.

Lemma file_events_app evs1 evs2 :
  file_events (evs1 ++ evs2) = (file_events evs1 ++ file_events evs2)%list.
Proof. apply filter_app. Qed.

Lemma file_events_recv fd rs : file_events (EvRecv fd BUFSIZE <$> rs) = [].
Proof. induction rs as [|r rs IH]; [reflexivity | exact IH]. Qed.

Lemma main_loop_raise iters spins opts w e w' :
  run_server spins opts w = (Raise e, w') ->
  main_loop (S iters) spins opts w = (Raise e, w').
Proof. intros H. cbn [main_loop]. unfold bind. by rewrite H. Qed.

(** C3: a would-block error ([EAGAIN], which is [EWOULDBLOCK]) makes
    [read_tcp] call [recv] again at once: the loop goes into its next
    iteration in the world the failed [recv] left, whatever comes next.
    When [recv] raises the would-block errors [es] and then another
    error [e], the log shows one failed [recv] after the other and
    nothing in between.  The error
    [e] is raised again by [read_tcp], with no further [recv]: what the
    socket had after [e] is still there.  It is the outcome of
    [run_server] and of the loop of the script as well. *)
Theorem would_block_retried_other_errors_fatal
    iters spins opts w c rest es e tail :
  pending w = c :: rest ->
  faults c = (es ++ e :: tail)%list ->
  Forall (fun x => x = EAGAIN \/ x = EWOULDBLOCK) es ->
  e <> EAGAIN /\ e <> EWOULDBLOCK ->
  length es < spins ->
  (forall n w0 tl b,
      socks w0 !! next_fd w = Some (Conn (EAGAIN :: tl) b) ->
      read_tcp_loop (S n) (next_fd w) (delay opts) w0
      = read_tcp_loop n (next_fd w) (delay opts)
          (spun (next_fd w) [EAGAIN] (Conn tl b) w0))
  /\ exists w',
    read_tcp spins (next_fd w) (delay opts) (accepted c w)
      = (Raise (socket_error e), w')
    /\ log w' = (log (accepted c w) ++ [EvPrint "read data from client"]
                   ++ (recv_failed (next_fd w) <$> es)
                   ++ [recv_failed (next_fd w) e])%list
    /\ socks w' !! next_fd w = Some (Conn tail (rxbuf c))
    /\ run_server spins opts w = (Raise (socket_error e), w')
    /\ main_loop (S iters) spins opts w = (Raise (socket_error e), w').
Proof.
  intros Hp Hf Hes [He _] Hlen.
  split; [intros n w0 tl b; apply read_tcp_loop_would_block|].
  assert (Hall : Forall (fun x => x = EAGAIN) es).
  { eapply Forall_impl; [exact Hes|]. intros x [Hx|Hx]; exact Hx. }
  destruct c as [fs0 b]; cbn [faults rxbuf] in *; subst fs0.
  set (fd := next_fd w).
  set (w1 := emit (EvPrint "read data from client")
                  (accepted (Conn (es ++ e :: tail) b) w)).
  assert (Hread : read_tcp spins fd (delay opts) (accepted (Conn (es ++ e :: tail) b) w)
                  = (Raise (socket_error e),
                     spun fd (es ++ [e]) (Conn tail b) w1)).
  { unfold read_tcp, bind at 1, print at 1. fold w1.
    replace spins with (length es + S (spins - S (length es))) by lia.
    rewrite (read_tcp_loop_spin _ _ es _ _ (e :: tail) b Hall)
      by (subst w1 fd; cbn [accepted emit take_pending socks]; apply lookup_insert_eq).
    rewrite (read_tcp_loop_fatal _ _ _ _ e tail b)
      by (cbn [spun socks]; first [apply lookup_insert_eq | exact He]).
    by rewrite spun_spun. }
  assert (Hrun : run_server spins opts w
                 = (Raise (socket_error e), spun fd (es ++ [e]) (Conn tail b) w1)).
  { rewrite (run_server_accepted _ _ _ _ _ Hp). unfold bind at 1.
    fold fd. by rewrite Hread. }
  exists (spun fd (es ++ [e]) (Conn tail b) w1).
  split; [exact Hread|]. split.
  { subst w1. cbn [spun emit log]. rewrite fmap_app, <- !app_assoc. reflexivity. }
  split; [cbn [spun socks]; apply lookup_insert_eq|].
  split; [exact Hrun|]. by apply main_loop_raise.
Qed.

Lemma would_block_retried_other_errors_fatal_witness :
  (forall n w0 tl b,
      socks w0 !! next_fd reset_world = Some (Conn (EAGAIN :: tl) b) ->
      read_tcp_loop (S n) (next_fd reset_world) (delay (default_opts "out.txt")) w0
      = read_tcp_loop n (next_fd reset_world) (delay (default_opts "out.txt"))
          (spun (next_fd reset_world) [EAGAIN] (Conn tl b) w0))
  /\ exists w',
    read_tcp 5 (next_fd reset_world) (delay (default_opts "out.txt"))
             (accepted (Conn [EAGAIN; ECONNRESET] "lost") reset_world)
      = (Raise (socket_error ECONNRESET), w')
    /\ log w' = (log (accepted (Conn [EAGAIN; ECONNRESET] "lost") reset_world)
                   ++ [EvPrint "read data from client"]
                   ++ (recv_failed (next_fd reset_world) <$> [EAGAIN])
                   ++ [recv_failed (next_fd reset_world) ECONNRESET])%list
    /\ socks w' !! next_fd reset_world
       = Some (Conn [] (rxbuf (Conn [EAGAIN; ECONNRESET] "lost")))
    /\ run_server 5 (default_opts "out.txt") reset_world
       = (Raise (socket_error ECONNRESET), w')
    /\ main_loop 1 5 (default_opts "out.txt") reset_world
       = (Raise (socket_error ECONNRESET), w').
Proof.
  apply (would_block_retried_other_errors_fatal 0 5 (default_opts "out.txt")
           reset_world (Conn [EAGAIN; ECONNRESET] "lost") [] [EAGAIN] ECONNRESET []).
  - reflexivity.
  - reflexivity.
  - repeat constructor.
  - split; discriminate.
  - simpl. lia.
Defined.

(** C10: when [read_tcp] raises on the connection just accepted, the
    exception is the outcome of [run_server]; the file system is as it
    was before the connection and no file has been opened, written or
    closed. *)
Theorem fatal_read_leaves_file_alone spins opts w c rest e w' :
  pending w = c :: rest ->
  read_tcp spins (next_fd w) (delay opts) (accepted c w) = (Raise e, w') ->
  run_server spins opts w = (Raise e, w')
  /\ fs w' = fs w
  /\ file_events (log w') = file_events (log w).
Proof.
  intros Hp H. split.
  { rewrite (run_server_accepted _ _ _ _ _ Hp). unfold bind at 1. by rewrite H. }
  unfold read_tcp, bind at 1, print at 1 in H.
  apply read_tcp_loop_frame in H as (_ & Hfs & _ & _ & _ & _ & rs & Hlog).
  split; [exact Hfs|].
  rewrite Hlog, file_events_app, file_events_recv, app_nil_r.
  cbn [accepted emit take_pending log].
  by rewrite !file_events_app, !app_nil_r.
Qed.

Lemma fatal_read_leaves_file_alone_witness :
  run_server 5 (default_opts "out.txt") reset_world
    = (Raise (socket_error ECONNRESET),
       snd (run_server 5 (default_opts "out.txt") reset_world))
  /\ fs (snd (run_server 5 (default_opts "out.txt") reset_world)) = fs reset_world
  /\ file_events (log (snd (run_server 5 (default_opts "out.txt") reset_world)))
     = file_events (log reset_world).
Proof.
  apply (fatal_read_leaves_file_alone 5 (default_opts "out.txt") reset_world
           (Conn [EAGAIN; ECONNRESET] "lost") []).
  - reflexivity.
  - vm_compute. reflexivity.
Defined.

(** ** The listener *)

Lemma serve_listening iters spins opts w :
  (0 <= port opts <= 65535)%Z ->
  port opts ∉ busy_ports w ->
  (0 <= timeout opts)%Z ->
  serve iters spins opts w = main_loop iters spins opts (listening opts w).
Proof.
  intros Hport Hfree Ht. unfold serve, listening.
  unfold bind at 1, socket_create.
  unfold bind at 1, setsockopt_reuseaddr.
  unfold bind at 1, sock_bind.
  rewrite decide_True by exact Hport.
  rewrite decide_False by exact Hfree.
  unfold bind at 1, print at 1. unfold bind at 1, sock_listen.
  unfold bind at 1, print at 1. unfold bind at 1.
  destruct (decide (timeout opts ≠ 0%Z)) as [Hnz|Hz]; [|reflexivity].
  unfold settimeout. rewrite decide_False by lia. reflexivity.
Qed.

Lemma run_server_timeout spins opts w t :
  pending w = [] ->
  listen_timeout w = Some t ->
  run_server spins opts w = (Raise socket_timeout, w).
Proof.
  intros Hp Ht. unfold run_server, bind, accept. by rewrite Hp, Ht.
Qed.

Lemma listening_frame opts w :
  pending (listening opts w) = pending w
  /\ fs (listening opts w) = fs w
  /\ denied (listening opts w) = denied w
  /\ file_events (log (listening opts w)) = file_events (log w)
  /\ listen_timeout (listening opts w)
     = if decide (timeout opts ≠ 0%Z) then Some (timeout opts) else None.
Proof.
  unfold listening. destruct (decide (timeout opts ≠ 0%Z));
    cbn [emit set_listen_timeout pending fs denied log listen_timeout];
    rewrite !file_events_app, !app_nil_r; auto.
Qed.

(** C6: with a timeout configured and no client connecting, [accept]
    raises [socket.timeout]; nothing handles it, so it is the outcome of
    [run_server], of the loop and of the whole script.  The world is left
    as [accept] found it: the file system is unchanged (a file that was
    absent stays absent) and no file was opened, written or closed. *)
Theorem accept_timeout_is_fatal iters spins opts w :
  pending w = [] ->
  (0 < timeout opts)%Z ->
  (0 <= port opts <= 65535)%Z ->
  port opts ∉ busy_ports w ->
  serve (S iters) spins opts w = (Raise socket_timeout, listening opts w)
  /\ run_server spins opts (listening opts w) = (Raise socket_timeout, listening opts w)
  /\ fs (listening opts w) = fs w
  /\ file_events (log (listening opts w)) = file_events (log w).
Proof.
  intros Hp Ht Hport Hfree.
  destruct (listening_frame opts w) as (Hp' & Hfs & _ & Hlog & Hto).
  rewrite decide_True in Hto by lia.
  assert (Hrun : run_server spins opts (listening opts w)
                 = (Raise socket_timeout, listening opts w)).
  { apply run_server_timeout with (timeout opts); [by rewrite Hp'|exact Hto]. }
  split.
  { rewrite serve_listening by (assumption || lia). by apply main_loop_raise. }
  auto.
Qed.

Lemma accept_timeout_is_fatal_witness :
  serve 1 1 (Options "out.txt" false 40000 1 0%Q)
        (World [] ∅ 4 None ∅ {["out.txt" := "stale"]} ∅ [])
    = (Raise socket_timeout,
       listening (Options "out.txt" false 40000 1 0%Q)
                 (World [] ∅ 4 None ∅ {["out.txt" := "stale"]} ∅ []))
  /\ run_server 1 (Options "out.txt" false 40000 1 0%Q)
       (listening (Options "out.txt" false 40000 1 0%Q)
                  (World [] ∅ 4 None ∅ {["out.txt" := "stale"]} ∅ []))
     = (Raise socket_timeout,
        listening (Options "out.txt" false 40000 1 0%Q)
                  (World [] ∅ 4 None ∅ {["out.txt" := "stale"]} ∅ []))
  /\ fs (listening (Options "out.txt" false 40000 1 0%Q)
                   (World [] ∅ 4 None ∅ {["out.txt" := "stale"]} ∅ []))
     = fs (World [] ∅ 4 None ∅ {["out.txt" := "stale"]} ∅ [])
  /\ file_events (log (listening (Options "out.txt" false 40000 1 0%Q)
                                 (World [] ∅ 4 None ∅ {["out.txt" := "stale"]} ∅ [])))
     = file_events (log (World [] ∅ 4 None ∅ {["out.txt" := "stale"]} ∅ [])).
Proof.
  apply (accept_timeout_is_fatal 0 1 (Options "out.txt" false 40000 1 0%Q)
           (World [] ∅ 4 None ∅ {["out.txt" := "stale"]} ∅ [])).
  - reflexivity.
  - simpl. lia.
  - simpl. lia.
  - simpl. apply not_elem_of_empty.
Defined.

(** ** The loop *)

Lemma accepts_app evs1 evs2 : accepts (evs1 ++ evs2) = accepts evs1 + accepts evs2.
Proof. unfold accepts. by rewrite filter_app, length_app. Qed.

Lemma accepts_served_log path fd c : accepts (served_log path fd c) = 1.
Proof.
  unfold served_log. rewrite !accepts_app.
  assert (H : accepts (recv_failed fd <$> faults c) = 0).
  { induction (faults c) as [|e es IH]; [reflexivity | exact IH]. }
  rewrite H. reflexivity.
Qed.

Lemma served_all_frame opts cs : forall w rest,
  pending w = (cs ++ rest)%list ->
  pending (served_all opts cs w) = rest
  /\ denied (served_all opts cs w) = denied w
  /\ listen_timeout (served_all opts cs w) = listen_timeout w
  /\ accepts (log (served_all opts cs w)) = accepts (log w) + length cs.
Proof.
  induction cs as [|c cs IH]; intros w rest Hp.
  - simpl. repeat split; [exact Hp | lia].
  - cbn [served_all foldl]. fold (served_all opts cs (served opts c w)).
    destruct (IH (served opts c w) rest) as (H1 & H2 & H3 & H4).
    { cbn [served pending]. by rewrite Hp. }
    rewrite H1, H2, H3, H4. cbn [served denied listen_timeout log].
    rewrite accepts_app, accepts_served_log. cbn [length]. repeat split; lia.
Qed.

(** After the last of several clients the file holds the payload of
    that client alone. *)
Lemma served_all_fs opts cs : forall w,
  fs (served_all opts cs w)
  = match last cs with
    | Some c => <[datafile opts := payload c]> (fs w)
    | None => fs w
    end.
Proof.
  induction cs as [|c cs IH]; intros w; [reflexivity|].
  cbn [served_all foldl]. fold (served_all opts cs (served opts c w)).
  rewrite IH. cbn [served fs].
  destruct cs as [|c' cs]; [reflexivity|].
  change (last (c :: c' :: cs)) with (last (c' :: cs)).
  destruct (last (c' :: cs)) as [l|] eqn:Hl.
  - apply insert_insert_eq.
  - by apply last_None in Hl.
Qed.

Lemma main_loop_served_all spins opts cs : forall n w rest,
  single opts = false ->
  pending w = (cs ++ rest)%list ->
  Forall (good spins) cs ->
  datafile opts ∉ denied w ->
  main_loop (length cs + n) spins opts w
  = main_loop n spins opts (served_all opts cs w).
Proof.
  induction cs as [|c cs IH]; intros n w rest Hs Hp Hg Hd; [reflexivity|].
  inversion Hg as [|? ? Hc Hcs]; subst.
  change (length (c :: cs) + n) with (S (length cs + n)).
  cbn [main_loop]. unfold bind at 1.
  rewrite (run_server_served _ _ _ _ (cs ++ rest) Hp Hc Hd), Hs.
  apply IH with rest; try assumption.
  cbn [served pending]. by rewrite Hp.
Qed.

(** In default mode the loop never ends by itself. *)
Lemma main_loop_default_never_returns spins opts n : forall w r w',
  single opts = false ->
  main_loop n spins opts w = (r, w') ->
  r <> Ret tt.
Proof.
  induction n as [|n IH]; intros w r w' Hs H.
  - injection H as <- <-. discriminate.
  - cbn [main_loop] in H. unfold bind at 1 in H. rewrite Hs in H.
    destruct (run_server spins opts w) as [[[]| |] w1].
    + by apply IH in H.
    + injection H as <- <-. discriminate.
    + injection H as <- <-. discriminate.
Qed.

(** C7: with clients [c :: cs] connecting, all of them good, the loop of
    the script in single-shot mode serves [c] alone and returns: there
    has been one [accept] and the other clients are still waiting.  In
    default mode it serves every one of them, however many, one [accept]
    each, and goes round again; it never returns by itself. *)
Theorem single_shot_stops_default_loops iters spins opts w c cs rest :
  pending w = (c :: cs ++ rest)%list ->
  Forall (good spins) (c :: cs) ->
  datafile opts ∉ denied w ->
  if single opts then
    main_loop (S iters) spins opts w = (Ret tt, served opts c w)
    /\ pending (served opts c w) = (cs ++ rest)%list
    /\ accepts (log (served opts c w)) = S (accepts (log w))
  else
    main_loop (length (c :: cs) + iters) spins opts w
      = main_loop iters spins opts (served_all opts (c :: cs) w)
    /\ pending (served_all opts (c :: cs) w) = rest
    /\ accepts (log (served_all opts (c :: cs) w))
       = accepts (log w) + length (c :: cs)
    /\ forall n r w', main_loop n spins opts w = (r, w') -> r <> Ret tt.
Proof.
  intros Hp Hg Hd. destruct (single opts) eqn:Hs.
  - inversion Hg as [|? ? Hc _]; subst.
    split.
    { cbn [main_loop]. unfold bind at 1.
      by rewrite (run_server_served _ _ _ _ _ Hp Hc Hd), Hs. }
    cbn [served pending log]. rewrite Hp, accepts_app, accepts_served_log.
    split; [reflexivity | lia].
  - destruct (served_all_frame opts (c :: cs) w rest Hp) as (H1 & _ & _ & H4).
    split; [by apply main_loop_served_all with rest|].
    split; [exact H1|]. split; [exact H4|].
    intros n r w'. by apply main_loop_default_never_returns.
Qed.

Lemma single_shot_stops_default_loops_witness :
  (main_loop 1 3 (Options "out.txt" true 40000 30 0%Q) (client_world three_clients ∅)
   = (Ret tt, served (Options "out.txt" true 40000 30 0%Q) (Conn [EAGAIN] "one")
                (client_world three_clients ∅))
   /\ pending (served (Options "out.txt" true 40000 30 0%Q) (Conn [EAGAIN] "one")
                 (client_world three_clients ∅))
      = [Conn [] "two"; Conn [EAGAIN; EAGAIN] "three"]
   /\ accepts (log (served (Options "out.txt" true 40000 30 0%Q) (Conn [EAGAIN] "one")
                      (client_world three_clients ∅)))
      = S (accepts (log (client_world three_clients ∅))))
  /\ (main_loop (3 + 1) 3 (default_opts "out.txt") (client_world three_clients ∅)
      = main_loop 1 3 (default_opts "out.txt")
          (served_all (default_opts "out.txt") three_clients (client_world three_clients ∅))
      /\ pending (served_all (default_opts "out.txt") three_clients
                    (client_world three_clients ∅)) = []
      /\ accepts (log (served_all (default_opts "out.txt") three_clients
                         (client_world three_clients ∅)))
         = accepts (log (client_world three_clients ∅)) + 3
      /\ forall n r w',
           main_loop n 3 (default_opts "out.txt") (client_world three_clients ∅) = (r, w') ->
           r <> Ret tt).
Proof.
  split.
  - apply (single_shot_stops_default_loops 0 3 (Options "out.txt" true 40000 30 0%Q)
             (client_world three_clients ∅) (Conn [EAGAIN] "one")
             [Conn [] "two"; Conn [EAGAIN; EAGAIN] "three"] []).
    + reflexivity.
    + repeat constructor; simpl; lia.
    + simpl. apply not_elem_of_empty.
  - apply (single_shot_stops_default_loops 1 3 (default_opts "out.txt")
             (client_world three_clients ∅) (Conn [EAGAIN] "one")
             [Conn [] "two"; Conn [EAGAIN; EAGAIN] "three"] []).
    + reflexivity.
    + repeat constructor; simpl; lia.
    + simpl. apply not_elem_of_empty.
Defined.

(** ** The output file *)

Lemma file_events_failed fd es : file_events (recv_failed fd <$> es) = [].
Proof. induction es as [|e es IH]; [reflexivity | exact IH]. Qed.



(** A connection that is not served to the end leaves the files alone. *)
Lemma run_server_fail_frame spins opts w r w' :
  run_server spins opts w = (r, w') ->
  r <> Ret tt ->
  fs w' = fs w /\ file_events (log w') = file_events (log w).
Proof.
  intros H Hr. destruct (pending w) as [|c rest] eqn:Hp.
  - unfold run_server, bind, accept in H. rewrite Hp in H.
    destruct (listen_timeout w); injection H as <- <-; auto.
  - rewrite (run_server_accepted _ _ _ _ _ Hp) in H. unfold bind at 1 in H.
    destruct (read_tcp _ _ _ _) as [r1 w1] eqn:Hread.
    assert (Hframe : fs w1 = fs w /\ file_events (log w1) = file_events (log w)).
    { unfold read_tcp, bind at 1, print at 1 in Hread.
      apply read_tcp_loop_frame in Hread as (_ & Hfs & _ & _ & _ & _ & rs & Hlog).
      split; [exact Hfs|].
      rewrite Hlog, file_events_app, file_events_recv, app_nil_r.
      cbn [accepted emit take_pending log].
      by rewrite !file_events_app, !app_nil_r. }
    destruct r1 as [data| |]; try (injection H as <- <-; exact Hframe).
    unfold bind at 1, open_w in H.
    destruct (decide (datafile opts ∈ denied w1)).
    + injection H as <- <-; exact Hframe.
    + unfold bind, file_write, print, file_close, try_except, conn_close in H.
      injection H as <- _. by destruct Hr.
Qed.

(** Wherever the loop stops, the clients served to the end are a prefix
    [cs] of those that connected, and the files are as [cs] left them. *)
Lemma main_loop_inv spins opts n : forall w r w',
  main_loop n spins opts w = (r, w') ->
  exists cs rest,
    pending w = (cs ++ rest)%list
    /\ Forall (good spins) cs
    /\ fs w' = fs (served_all opts cs w)
    /\ file_events (log w') = file_events (log (served_all opts cs w)).
Proof.
  induction n as [|n IH]; intros w r w' H.
  - injection H as <- <-. exists [], (pending w). by repeat split.
  - cbn [main_loop] in H. unfold bind at 1 in H.
    destruct (run_server spins opts w) as [r1 w1] eqn:Hrun.
    destruct r1 as [[]| |].
    + apply run_server_ret_inv in Hrun as (c & rest & Hp & Hg & Hd & ->).
      destruct (single opts).
      * injection H as <- <-. exists [c], rest. repeat split; auto.
      * apply IH in H as (cs & rest' & Hp' & Hg' & Hfs & Hlog).
        cbn [served pending] in Hp'. rewrite Hp in Hp'. cbn [tail] in Hp'.
        exists (c :: cs), rest'. subst rest. repeat split; auto.
    + injection H as <- <-. exists [], (pending w).
      destruct (run_server_fail_frame _ _ _ _ _ Hrun) as [Hfs Hlog]; [discriminate|].
      by repeat split.
    + injection H as <- <-. exists [], (pending w).
      destruct (run_server_fail_frame _ _ _ _ _ Hrun) as [Hfs Hlog]; [discriminate|].
      by repeat split.
Qed.



Lemma printed_app evs1 evs2 : printed (evs1 ++ evs2) = (printed evs1 ++ printed evs2)%list.
Proof. apply omap_app. Qed.

Lemma printed_failed fd es : printed (recv_failed fd <$> es) = [].
Proof. induction es as [|e es IH]; [reflexivity | exact IH]. Qed.

(** C9: whatever the options, a connection served to the end makes the
    script print four lines, the third of which is ["Write: "] followed
    by the captured data; [run_server] consults no option for it, and
    the parser declares none beyond the help screen, the data file, the
    single-shot flag, the port, the timeout and the delay. *)
Theorem write_line_always_printed spins opts w w' :
  run_server spins opts w = (Ret tt, w') ->
  (exists c,
     head (pending w) = Some c
     /\ EvRecv (next_fd w) BUFSIZE (Got (payload c)) ∈ log w'
     /\ printed (log w')
        = (printed (log w)
             ++ ["client connected"; "read data from client";
                 ("Write: " ++ payload c)%string; "closing connection"])%list)
  /\ dest <$> parser = ["help"; "datafile"; "single"; "port"; "timeout"; "delay"].
Proof.
  intros H. split; [|reflexivity].
  apply run_server_ret_inv in H as (c & rest & Hp & _ & _ & ->).
  exists c. rewrite Hp. split; [reflexivity|].
  cbn [served log]. unfold served_log. split.
  - rewrite !elem_of_app. right; right; right. apply list_elem_of_here.
  - rewrite !printed_app, printed_failed. reflexivity.
Qed.

Lemma write_line_always_printed_witness :
  (exists c,
     head (pending stale_world) = Some c
     /\ EvRecv (next_fd stale_world) BUFSIZE (Got (payload c))
          ∈ log (snd (run_server 3 (Options "out.txt" true 1234 0 2.5%Q) stale_world))
     /\ printed (log (snd (run_server 3 (Options "out.txt" true 1234 0 2.5%Q) stale_world)))
        = (printed (log stale_world)
             ++ ["client connected"; "read data from client";
                 ("Write: " ++ payload c)%string; "closing connection"])%list)
  /\ dest <$> parser = ["help"; "datafile"; "single"; "port"; "timeout"; "delay"].
Proof.
  apply (write_line_always_printed 3 (Options "out.txt" true 1234 0 2.5%Q) stale_world).
  vm_compute. reflexivity.
Defined.

(** ** The delay *)

Lemma read_tcp_loop_delay fd d1 d2 spins : forall w,
  read_tcp_loop spins fd d1 w = read_tcp_loop spins fd d2 w.
Proof.
  induction spins as [|spins IH]; intros w; [reflexivity|].
  cbn [read_tcp_loop]. unfold try_except.
  destruct ((data <- recv fd BUFSIZE ;; ret data) w) as [[data|e|] w1];
    try reflexivity.
  destruct (is_socket_error e); [|reflexivity].
  destruct (decide (exn_errno e = Some EAGAIN)); [apply IH | reflexivity].
Qed.

(** C4 (what the code does instead): [read_tcp] does not look at its
    delay.  With any delay it does what it does with none, and all it
    does after its message is call [recv]: no [EvSleep] is ever logged.
    In a run configured with a delay of 2.5 seconds the [recv] follows
    the message directly. *)
Theorem read_tcp_ignores_delay spins fd read_delay w :
  read_tcp spins fd read_delay w = read_tcp spins fd DEFAULT_DELAY w
  /\ (exists rs,
        log (snd (read_tcp spins fd read_delay w))
        = (log w ++ EvPrint "read data from client" :: (EvRecv fd BUFSIZE <$> rs))%list)
  /\ log (snd (run_server 1 delayed_opts (client_world [Conn [] "hello"] ∅)))
     = [EvAccept 4; EvPrint "client connected"; EvPrint "read data from client";
        EvRecv 4 1024 (Got "hello");
        EvOpen "out.txt"; EvWrite "out.txt" "hello"; EvPrint "Write: hello";
        EvCloseFile "out.txt"; EvPrint "closing connection"; EvCloseConn 4].
Proof.
  split; [|split].
  - unfold read_tcp, bind. cbn [print]. apply read_tcp_loop_delay.
  - unfold read_tcp, bind at 1, print at 1.
    destruct (read_tcp_loop _ _ _ _) as [r w'] eqn:H.
    apply read_tcp_loop_frame in H as (_ & _ & _ & _ & _ & _ & rs & Hlog).
    exists rs. cbn [snd]. rewrite Hlog. cbn [emit log].
    by rewrite <- app_assoc.
  - vm_compute. reflexivity.
Qed.

(** ** The console option *)

Lemma stdout_flag_unknown t : stdout_flag t -> parse_optional parser t = TUnknown.
Proof. intros [->| ->]; reflexivity. Qed.

Lemma finish_extras ps ns seen o : finish ps ns seen true <> Parsed o.
Proof. unfold finish. destruct (existsb _ ps); discriminate. Qed.

Lemma consume_optional_stop ps a flag e next ns seen r o :
  consume_optional ps a flag e next ns seen = Stop r -> r <> Parsed o.
Proof.
  unfold consume_optional. intros H.
  repeat (case_match; try discriminate); injection H as <-; discriminate.
Qed.

Lemma consume_optional_used ps a flag e next ns seen ns' seen' :
  consume_optional ps a flag e next ns seen = Next ns' seen' true ->
  exists v, next = Some v /\ parse_optional ps v = TArg.
Proof.
  unfold consume_optional. intros H.
  repeat (case_match; try discriminate); simplify_eq/=; eauto.
Qed.

(** A command line that has left a token over, or has one of the two
    flags ahead, is not accepted. *)
Lemma consume_rejects_stdout n : forall ts ns seen extras o,
  length ts <= n ->
  extras = true \/ Exists stdout_flag ts ->
  consume parser ts ns seen extras <> Parsed o.
Proof.
  induction n as [|n IH]; intros ts ns seen extras o Hlen Hbad.
  - destruct ts; [|simpl in Hlen; lia].
    destruct Hbad as [->|H]; [apply finish_extras | inversion H].
  - destruct ts as [|t rest].
    { destruct Hbad as [->|H]; [apply finish_extras | inversion H]. }
    simpl in Hlen. cbn [consume].
    destruct (parse_optional parser t) eqn:Ht;
      try (apply IH; [lia | by left]); try discriminate.
    assert (Hrest : extras = true \/ Exists stdout_flag rest).
    { destruct Hbad as [?|H]; [by left|].
      inversion H as [? ? Hflag|]; subst; [|by right].
      rewrite (stdout_flag_unknown _ Hflag) in Ht. discriminate Ht. }
    destruct (consume_optional parser a flag explicit (head rest) ns seen)
      as [ns' seen' [|]|r] eqn:Hc.
    + apply consume_optional_used in Hc as (v & Hv & Harg).
      destruct rest as [|v' rest']; [discriminate Hv|].
      injection Hv as ->. simpl in Hlen. apply IH; [lia|].
      destruct Hrest as [?|H]; [by left|].
      inversion H as [? ? Hflag|]; subst; [|by right].
      rewrite (stdout_flag_unknown _ Hflag) in Harg. discriminate Harg.
    + apply IH; [lia | exact Hrest].
    + by eapply consume_optional_stop.
Qed.

(** C5 (what the code does instead): the parser of the script declares
    no console option.  No command line in which [-o] or [--stdout]
    occurs is accepted; [-f out.txt -o] and [-f out.txt --stdout] make
    the library leave with status 2, where [-f out.txt] alone is
    accepted. *)
Theorem parseArgs_rejects_stdout_option :
  (forall argv opts, Exists stdout_flag argv -> parseArgs argv <> Parsed opts)
  /\ parseArgs ["-f"; "out.txt"; "-o"] = Exits 2
  /\ parseArgs ["-f"; "out.txt"; "--stdout"] = Exits 2
  /\ parseArgs ["-f"; "out.txt"] = Parsed (default_opts "out.txt").
Proof.
  split; [|by vm_compute].
  intros argv opts H. unfold parseArgs, parse_args.
  destruct (existsb outside_model argv); [discriminate|].
  destruct (existsb _ argv); [discriminate|].
  apply consume_rejects_stdout with (length argv); [lia | by right].
Qed.

(** ** More on one connection *)



(** [read_tcp] on a good connection just accepted. *)
Lemma read_tcp_good spins read_delay w c rest :
  pending w = c :: rest ->
  good spins c ->
  read_tcp spins (next_fd w) read_delay (accepted c w)
  = (Ret (payload c), read_done c w).
Proof.
  intros Hp [Hall Hlen]. destruct c as [es b]; cbn [faults rxbuf] in *.
  unfold read_tcp, bind at 1, print at 1.
  replace spins with (length es + S (spins - S (length es))) by lia.
  rewrite (read_tcp_loop_spin _ _ es _ _ [] b Hall)
    by (cbn [accepted emit take_pending socks]; rewrite app_nil_r;
        apply lookup_insert_eq).
  rewrite (read_tcp_loop_data _ _ _ _ b)
    by (cbn [spun socks]; apply lookup_insert_eq).
  unfold payload; cbn [rxbuf]. f_equal. apply world_eq;
    cbn [drained spun accepted emit take_pending read_done
         pending socks next_fd listen_timeout busy_ports fs denied log
         faults rxbuf];
    try reflexivity.
  - by rewrite !insert_insert_eq.
  - unfold read_log, payload; cbn [rxbuf]. rewrite <- !app_assoc. reflexivity.
Qed.

(** [read_tcp] on a connection just accepted on which [recv] raises
    another error than would-block. *)
Lemma read_tcp_failed spins read_delay w c rest es e tl :
  pending w = c :: rest ->
  faults c = (es ++ e :: tl)%list ->
  Forall (fun x => x = EAGAIN) es ->
  e <> EAGAIN ->
  length es < spins ->
  read_tcp spins (next_fd w) read_delay (accepted c w)
  = (Raise (socket_error e), read_failed es e tl (rxbuf c) w).
Proof.
  intros Hp Hf Hall He Hlen. destruct c as [fs0 b]; cbn [faults rxbuf] in *; subst fs0.
  unfold read_tcp, bind at 1, print at 1.
  replace spins with (length es + S (spins - S (length es))) by lia.
  rewrite (read_tcp_loop_spin _ _ es _ _ (e :: tl) b Hall)
    by (cbn [accepted emit take_pending socks]; apply lookup_insert_eq).
  rewrite (read_tcp_loop_fatal _ _ _ _ e tl b)
    by (cbn [spun socks]; first [apply lookup_insert_eq | exact He]).
  f_equal. apply world_eq;
    cbn [spun accepted emit take_pending read_failed
         pending socks next_fd listen_timeout busy_ports fs denied log];
    try reflexivity.
  - by rewrite !insert_insert_eq.
  - unfold read_log. rewrite <- !app_assoc. reflexivity.
Qed.

(** X1: when the output file cannot be opened for writing, the client
    has already been accepted and read: [run_server] raises [IOError]
    with the captured data lost.  No file is touched, the line
    ["Write: ..."] is not printed, and the connection is left open, with
    what [recv] did not take still in it.  The loop of the script ends
    with the same exception. *)
Theorem unwritable_file_loses_the_data iters spins opts w c rest :
  pending w = c :: rest ->
  good spins c ->
  datafile opts ∈ denied w ->
  run_server spins opts w = (Raise (IOError (datafile opts)), read_done c w)
  /\ main_loop (S iters) spins opts w = (Raise (IOError (datafile opts)), read_done c w)
  /\ fs (read_done c w) = fs w
  /\ file_events (log (read_done c w)) = file_events (log w)
  /\ printed (log (read_done c w))
     = (printed (log w) ++ ["client connected"; "read data from client"])%list
  /\ socks (read_done c w) !! next_fd w
     = Some (Conn [] (str_drop (Z.to_nat BUFSIZE) (rxbuf c)))
  /\ pending (read_done c w) = rest.
Proof.
  intros Hp Hg Hd.
  assert (Hrun : run_server spins opts w
                 = (Raise (IOError (datafile opts)), read_done c w)).
  { rewrite (run_server_accepted _ _ _ _ _ Hp). unfold bind at 1.
    rewrite (read_tcp_good _ _ _ _ _ Hp Hg).
    unfold bind at 1, open_w. by rewrite decide_True by exact Hd. }
  split; [exact Hrun|]. split; [by apply main_loop_raise|].
  cbn [read_done fs log socks pending]. unfold read_log.
  rewrite !file_events_app, file_events_failed, !printed_app, printed_failed, Hp.
  rewrite !app_nil_r.
  repeat split; try reflexivity. apply lookup_insert_eq.
Qed.

Lemma unwritable_file_loses_the_data_witness :
  run_server 3 (default_opts "/") (World [Conn [EAGAIN] "hello"] ∅ 4 None ∅ ∅ {["/"]} [])
  = (Raise (IOError (datafile (default_opts "/"))),
     read_done (Conn [EAGAIN] "hello") (World [Conn [EAGAIN] "hello"] ∅ 4 None ∅ ∅ {["/"]} []))
  /\ main_loop 1 3 (default_opts "/") (World [Conn [EAGAIN] "hello"] ∅ 4 None ∅ ∅ {["/"]} [])
     = (Raise (IOError (datafile (default_opts "/"))),
        read_done (Conn [EAGAIN] "hello") (World [Conn [EAGAIN] "hello"] ∅ 4 None ∅ ∅ {["/"]} []))
  /\ fs (read_done (Conn [EAGAIN] "hello") (World [Conn [EAGAIN] "hello"] ∅ 4 None ∅ ∅ {["/"]} []))
     = fs (World [Conn [EAGAIN] "hello"] ∅ 4 None ∅ ∅ {["/"]} [])
  /\ file_events (log (read_done (Conn [EAGAIN] "hello")
                         (World [Conn [EAGAIN] "hello"] ∅ 4 None ∅ ∅ {["/"]} [])))
     = file_events (log (World [Conn [EAGAIN] "hello"] ∅ 4 None ∅ ∅ {["/"]} []))
  /\ printed (log (read_done (Conn [EAGAIN] "hello")
                     (World [Conn [EAGAIN] "hello"] ∅ 4 None ∅ ∅ {["/"]} [])))
     = (printed (log (World [Conn [EAGAIN] "hello"] ∅ 4 None ∅ ∅ {["/"]} []))
          ++ ["client connected"; "read data from client"])%list
  /\ socks (read_done (Conn [EAGAIN] "hello")
              (World [Conn [EAGAIN] "hello"] ∅ 4 None ∅ ∅ {["/"]} []))
       !! next_fd (World [Conn [EAGAIN] "hello"] ∅ 4 None ∅ ∅ {["/"]} [])
     = Some (Conn [] (str_drop (Z.to_nat BUFSIZE) (rxbuf (Conn [EAGAIN] "hello"))))
  /\ pending (read_done (Conn [EAGAIN] "hello")
                (World [Conn [EAGAIN] "hello"] ∅ 4 None ∅ ∅ {["/"]} [])) = [].
Proof.
  apply (unwritable_file_loses_the_data 0 3 (default_opts "/")
           (World [Conn [EAGAIN] "hello"] ∅ 4 None ∅ ∅ {["/"]} [])
           (Conn [EAGAIN] "hello") []).
  - reflexivity.
  - split; [repeat constructor | simpl; lia].
  - simpl. apply elem_of_singleton. reflexivity.
Defined.



(** X3: [read_tcp] has no bound on its retries and no pause between
    them: as long as [recv] raises would-block errors the loop goes on.
    After as many iterations as there were would-block errors it has
    called [recv] that many times, one call after the other, and is
    still in the loop. *)
Theorem would_block_is_retried_for_ever fd read_delay w es tl b :
  socks w !! fd = Some (Conn (es ++ tl) b) ->
  Forall (fun e => e = EAGAIN) es ->
  exists w',
    read_tcp (length es) fd read_delay w = (Hang, w')
    /\ log w' = (log w ++ EvPrint "read data from client"
                   :: (recv_failed fd <$> es))%list
    /\ socks w' !! fd = Some (Conn tl b)
    /\ fs w' = fs w.
Proof.
  intros Hc Hall.
  exists (spun fd es (Conn tl b) (emit (EvPrint "read data from client") w)).
  split.
  - unfold read_tcp, bind at 1, print at 1.
    rewrite <- (Nat.add_0_r (length es)).
    by rewrite (read_tcp_loop_spin _ _ es _ _ tl b Hall) by exact Hc.
  - cbn [spun emit log socks fs]. rewrite <- app_assoc.
    repeat split; try reflexivity. apply lookup_insert_eq.
Qed.

Lemma would_block_is_retried_for_ever_witness :
  exists w',
    read_tcp (length [EAGAIN; EAGAIN; EAGAIN]) 4 0%Q
      (World [] {[4 := Conn [EAGAIN; EAGAIN; EAGAIN; EAGAIN] "late"]} 5 None ∅ ∅ ∅ [])
    = (Hang, w')
    /\ log w'
       = (log (World [] {[4 := Conn [EAGAIN; EAGAIN; EAGAIN; EAGAIN] "late"]} 5 None ∅ ∅ ∅ [])
            ++ EvPrint "read data from client"
            :: (recv_failed 4 <$> [EAGAIN; EAGAIN; EAGAIN]))%list
    /\ socks w' !! 4 = Some (Conn [EAGAIN] "late")
    /\ fs w' = fs (World [] {[4 := Conn [EAGAIN; EAGAIN; EAGAIN; EAGAIN] "late"]} 5 None ∅ ∅ ∅ []).
Proof.
  apply (would_block_is_retried_for_ever 4 0%Q
           (World [] {[4 := Conn [EAGAIN; EAGAIN; EAGAIN; EAGAIN] "late"]} 5 None ∅ ∅ ∅ [])
           [EAGAIN; EAGAIN; EAGAIN] [EAGAIN] "late").
  - reflexivity.
  - repeat constructor.
Defined.

(** ** More on the loop *)

(** X4: in default mode one connection on which [recv] raises another
    error than would-block ends the script for every client after it.
    The clients [cs] before it have been served, the file holds what the
    last of them left, the failed connection is left open and the
    clients after it are never accepted. *)
Theorem one_fatal_connection_stops_the_server
    iters spins opts w cs c rest es e tl :
  single opts = false ->
  pending w = (cs ++ c :: rest)%list ->
  Forall (good spins) cs ->
  datafile opts ∉ denied w ->
  faults c = (es ++ e :: tl)%list ->
  Forall (fun x => x = EAGAIN) es ->
  e <> EAGAIN ->
  length es < spins ->
  main_loop (length cs + S iters) spins opts w
  = (Raise (socket_error e),
     read_failed es e tl (rxbuf c) (served_all opts cs w))
  /\ pending (read_failed es e tl (rxbuf c) (served_all opts cs w)) = rest
  /\ fs (read_failed es e tl (rxbuf c) (served_all opts cs w))
     = match last cs with
       | Some c' => <[datafile opts := payload c']> (fs w)
       | None => fs w
       end
  /\ accepts (log (read_failed es e tl (rxbuf c) (served_all opts cs w)))
     = accepts (log w) + length cs + 1.
Proof.
  intros Hs Hp Hg Hd Hf Hall He Hlen.
  destruct (served_all_frame opts cs w (c :: rest) Hp) as (Hp' & Hd' & _ & Hacc).
  split.
  { rewrite (main_loop_served_all _ _ cs _ _ (c :: rest) Hs Hp Hg Hd).
    apply main_loop_raise.
    rewrite (run_server_accepted _ _ _ _ _ Hp'). unfold bind at 1.
    by rewrite (read_tcp_failed _ _ _ _ _ _ _ _ Hp' Hf Hall He Hlen). }
  cbn [read_failed pending fs log]. rewrite Hp', served_all_fs.
  split; [reflexivity|]. split; [reflexivity|].
  unfold read_log. rewrite !accepts_app, Hacc.
  assert (H0 : accepts (recv_failed (next_fd (served_all opts cs w)) <$> es) = 0).
  { clear. induction es as [|x es IH]; [reflexivity | exact IH]. }
  rewrite H0.
  set (fd := next_fd (served_all opts cs w)).
  change (accepts [EvAccept fd; EvPrint "client connected";
                   EvPrint "read data from client"]) with 1.
  change (accepts [EvRecv fd BUFSIZE (Failed e)]) with 0.
  lia.
Qed.

Lemma one_fatal_connection_stops_the_server_witness :
  main_loop (length [Conn [] "one"] + 1) 3 (default_opts "out.txt")
    (client_world [Conn [] "one"; Conn [EAGAIN; ECONNRESET] "two"; Conn [] "three"] ∅)
  = (Raise (socket_error ECONNRESET),
     read_failed [EAGAIN] ECONNRESET [] (rxbuf (Conn [EAGAIN; ECONNRESET] "two"))
       (served_all (default_opts "out.txt") [Conn [] "one"]
          (client_world [Conn [] "one"; Conn [EAGAIN; ECONNRESET] "two"; Conn [] "three"] ∅)))
  /\ pending (read_failed [EAGAIN] ECONNRESET [] (rxbuf (Conn [EAGAIN; ECONNRESET] "two"))
                (served_all (default_opts "out.txt") [Conn [] "one"]
                   (client_world [Conn [] "one"; Conn [EAGAIN; ECONNRESET] "two";
                                  Conn [] "three"] ∅)))
     = [Conn [] "three"]
  /\ fs (read_failed [EAGAIN] ECONNRESET [] (rxbuf (Conn [EAGAIN; ECONNRESET] "two"))
           (served_all (default_opts "out.txt") [Conn [] "one"]
              (client_world [Conn [] "one"; Conn [EAGAIN; ECONNRESET] "two";
                             Conn [] "three"] ∅)))
     = match last [Conn [] "one"] with
       | Some c' => <[datafile (default_opts "out.txt") := payload c']>
                      (fs (client_world [Conn [] "one"; Conn [EAGAIN; ECONNRESET] "two";
                                         Conn [] "three"] ∅))
       | None => fs (client_world [Conn [] "one"; Conn [EAGAIN; ECONNRESET] "two";
                                   Conn [] "three"] ∅)
       end
  /\ accepts (log (read_failed [EAGAIN] ECONNRESET [] (rxbuf (Conn [EAGAIN; ECONNRESET] "two"))
                     (served_all (default_opts "out.txt") [Conn [] "one"]
                        (client_world [Conn [] "one"; Conn [EAGAIN; ECONNRESET] "two";
                                       Conn [] "three"] ∅))))
     = accepts (log (client_world [Conn [] "one"; Conn [EAGAIN; ECONNRESET] "two";
                                   Conn [] "three"] ∅))
       + length [Conn [] "one"] + 1.
Proof.
  apply (one_fatal_connection_stops_the_server 0 3 (default_opts "out.txt")
           (client_world [Conn [] "one"; Conn [EAGAIN; ECONNRESET] "two"; Conn [] "three"] ∅)
           [Conn [] "one"] (Conn [EAGAIN; ECONNRESET] "two") [Conn [] "three"]
           [EAGAIN] ECONNRESET []).
  - reflexivity.
  - reflexivity.
  - repeat constructor; simpl; lia.
  - simpl. apply not_elem_of_empty.
  - reflexivity.
  - repeat constructor.
  - discriminate.
  - simpl. lia.
Defined.

(** X5: the script writes to the data file and to no other: wherever its
    loop stops, every other path of the file system is as it was, absent
    if it was absent. *)
Theorem other_files_untouched n spins opts w r w' path :
  main_loop n spins opts w = (r, w') ->
  path <> datafile opts ->
  fs w' !! path = fs w !! path.
Proof.
  intros H Hne.
  apply main_loop_inv in H as (cs & rest & _ & _ & Hfs & _).
  rewrite Hfs, served_all_fs.
  destruct (last cs); [|reflexivity].
  by apply lookup_insert_ne.
Qed.

Lemma other_files_untouched_witness :
  fs (snd (main_loop 5 3 (default_opts "out.txt")
             (client_world three_clients {["keep.txt" := "kept"]}))) !! "keep.txt"
  = fs (client_world three_clients {["keep.txt" := "kept"]}) !! "keep.txt".
Proof.
  apply (other_files_untouched 5 3 (default_opts "out.txt")
           (client_world three_clients {["keep.txt" := "kept"]})
           (Raise socket_timeout)
           (snd (main_loop 5 3 (default_opts "out.txt")
                   (client_world three_clients {["keep.txt" := "kept"]})))
           "keep.txt").
  - vm_compute. reflexivity.
  - discriminate.
Defined.

(** ** More on the listener *)

Lemma ready_frame opts w :
  pending (ready opts w) = pending w
  /\ fs (ready opts w) = fs w
  /\ denied (ready opts w) = denied w
  /\ listen_timeout (ready opts w) = None
  /\ accepts (log (ready opts w)) = accepts (log w)
  /\ printed (log (ready opts w))
     = (printed (log w) ++ ["listening"; "ready for connections"])%list.
Proof.
  unfold ready, unbound.
  cbn [emit set_listen_timeout pending fs denied listen_timeout log].
  rewrite !accepts_app, !printed_app, <- !app_assoc.
  repeat split; try reflexivity.
  change (accepts [EvSocket]) with 0. change (accepts [EvReuseAddr]) with 0.
  change (accepts [EvBind (port opts)]) with 0.
  change (accepts [EvPrint "listening"]) with 0.
  change (accepts [EvListen 5]) with 0.
  change (accepts [EvPrint "ready for connections"]) with 0. lia.
Qed.

Lemma serve_ready iters spins opts w :
  (0 <= port opts <= 65535)%Z ->
  port opts ∉ busy_ports w ->
  serve iters spins opts w
  = ((if decide (timeout opts ≠ 0%Z) then settimeout (timeout opts) else ret tt) ;;;
     main_loop iters spins opts) (ready opts w).
Proof.
  intros Hport Hfree. unfold serve, ready, unbound.
  unfold bind at 1, socket_create.
  unfold bind at 1, setsockopt_reuseaddr.
  unfold bind at 1, sock_bind.
  rewrite decide_True by exact Hport.
  rewrite decide_False by exact Hfree.
  unfold bind at 1, print at 1. unfold bind at 1, sock_listen.
  unfold bind at 1, print at 1. reflexivity.
Qed.



(** X7: a negative timeout is not refused by the script: the socket is
    bound and listening, both messages are printed, and then
    [settimeout] raises [ValueError]; no client is ever accepted. *)
Theorem negative_timeout_is_fatal iters spins opts w :
  (timeout opts < 0)%Z ->
  (0 <= port opts <= 65535)%Z ->
  port opts ∉ busy_ports w ->
  serve iters spins opts w
  = (Raise (ValueError "Timeout value out of range"), ready opts w)
  /\ pending (ready opts w) = pending w
  /\ accepts (log (ready opts w)) = accepts (log w)
  /\ printed (log (ready opts w))
     = (printed (log w) ++ ["listening"; "ready for connections"])%list.
Proof.
  intros Ht Hport Hfree.
  destruct (ready_frame opts w) as (Hp & _ & _ & _ & Hacc & Hpr).
  split; [|auto].
  rewrite serve_ready by assumption. unfold bind at 1.
  rewrite decide_True by lia. unfold settimeout.
  by rewrite decide_True by exact Ht.
Qed.

Lemma negative_timeout_is_fatal_witness :
  serve 5 3 (Options "out.txt" false 40000 (-1) 0%Q) (client_world three_clients ∅)
  = (Raise (ValueError "Timeout value out of range"),
     ready (Options "out.txt" false 40000 (-1) 0%Q) (client_world three_clients ∅))
  /\ pending (ready (Options "out.txt" false 40000 (-1) 0%Q) (client_world three_clients ∅))
     = pending (client_world three_clients ∅)
  /\ accepts (log (ready (Options "out.txt" false 40000 (-1) 0%Q)
                     (client_world three_clients ∅)))
     = accepts (log (client_world three_clients ∅))
  /\ printed (log (ready (Options "out.txt" false 40000 (-1) 0%Q)
                     (client_world three_clients ∅)))
     = (printed (log (client_world three_clients ∅))
          ++ ["listening"; "ready for connections"])%list.
Proof.
  apply (negative_timeout_is_fatal 5 3 (Options "out.txt" false 40000 (-1) 0%Q)
           (client_world three_clients ∅)).
  - simpl. lia.
  - simpl. lia.
  - simpl. apply not_elem_of_empty.
Defined.

(** X8: when [bind] fails, because the port is outside 0..65535 (the
    parser takes any integer) or because the port is taken, the
    exception ends the script before it prints anything: it is not
    listening and accepts no client. *)
Theorem bind_failure_is_fatal iters spins opts w :
  ¬ (0 <= port opts <= 65535)%Z \/ port opts ∈ busy_ports w ->
  serve iters spins opts w
  = (Raise (if decide (0 <= port opts <= 65535)%Z
            then socket_error EADDRINUSE
            else OverflowError "getsockaddrarg: port must be 0-65535."),
     unbound w)
  /\ printed (log (unbound w)) = printed (log w)
  /\ accepts (log (unbound w)) = accepts (log w)
  /\ pending (unbound w) = pending w.
Proof.
  intros H. split.
  - unfold serve, unbound.
    unfold bind at 1, socket_create.
    unfold bind at 1, setsockopt_reuseaddr.
    unfold bind at 1, sock_bind.
    destruct (decide (0 <= port opts <= 65535)%Z) as [Hin|Hout]; [|reflexivity].
    destruct H as [H|H]; [by destruct H|].
    by rewrite decide_True by exact H.
  - unfold unbound.
    cbn [emit set_listen_timeout pending log].
    rewrite !accepts_app, !printed_app.
    change (accepts [EvSocket]) with 0. change (accepts [EvReuseAddr]) with 0.
    cbn [printed omap]. rewrite !app_nil_r.
    repeat split; try reflexivity. lia.
Qed.

Lemma bind_failure_is_fatal_witness :
  (serve 5 3 (Options "out.txt" false 70000 30 0%Q) (client_world three_clients ∅)
   = (Raise (if decide (0 <= port (Options "out.txt" false 70000 30 0%Q) <= 65535)%Z
             then socket_error EADDRINUSE
             else OverflowError "getsockaddrarg: port must be 0-65535."),
      unbound (client_world three_clients ∅))
   /\ printed (log (unbound (client_world three_clients ∅)))
      = printed (log (client_world three_clients ∅))
   /\ accepts (log (unbound (client_world three_clients ∅)))
      = accepts (log (client_world three_clients ∅))
   /\ pending (unbound (client_world three_clients ∅))
      = pending (client_world three_clients ∅))
  /\ (serve 5 3 (default_opts "out.txt") (World three_clients ∅ 4 None {[40000%Z]} ∅ ∅ [])
      = (Raise (if decide (0 <= port (default_opts "out.txt") <= 65535)%Z
                then socket_error EADDRINUSE
                else OverflowError "getsockaddrarg: port must be 0-65535."),
         unbound (World three_clients ∅ 4 None {[40000%Z]} ∅ ∅ []))
      /\ printed (log (unbound (World three_clients ∅ 4 None {[40000%Z]} ∅ ∅ [])))
         = printed (log (World three_clients ∅ 4 None {[40000%Z]} ∅ ∅ []))
      /\ accepts (log (unbound (World three_clients ∅ 4 None {[40000%Z]} ∅ ∅ [])))
         = accepts (log (World three_clients ∅ 4 None {[40000%Z]} ∅ ∅ []))
      /\ pending (unbound (World three_clients ∅ 4 None {[40000%Z]} ∅ ∅ []))
         = pending (World three_clients ∅ 4 None {[40000%Z]} ∅ ∅ [])).
Proof.
  split.
  - apply (bind_failure_is_fatal 5 3 (Options "out.txt" false 70000 30 0%Q)
             (client_world three_clients ∅)).
    left. simpl. lia.
  - apply (bind_failure_is_fatal 5 3 (default_opts "out.txt")
             (World three_clients ∅ 4 None {[40000%Z]} ∅ ∅ [])).
    right. simpl. apply elem_of_singleton. reflexivity.
Defined.



(** ** More on the command line *)

(** A token that does not begin with a dash is read as a value. *)
Lemma value_token path :
  String.prefix "-" path = false ->
  parse_optional parser path = TArg /\ outside_model path = false.
Proof.
  intros H. split.
  - destruct path as [|c r]; [reflexivity|].
    destruct c as [[] [] [] [] [] [] [] []]; try reflexivity.
    simpl in H. destruct r; discriminate H.
  - unfold outside_model. rewrite H.
    rewrite bool_decide_eq_false_2; [reflexivity|].
    intros ->. discriminate H.
Qed.

(** X10: with the data file as the only option, in either spelling, the
    script runs on port 40000 with a timeout of 30 seconds, no delay and
    not in single-shot mode; [-s] changes the mode and nothing else. *)
Theorem parseArgs_defaults path :
  String.prefix "-" path = false ->
  parseArgs ["-f"; path] = Parsed (Options path false 40000 30 0%Q)
  /\ parseArgs ["--datafile"; path] = Parsed (Options path false 40000 30 0%Q)
  /\ parseArgs ["-s"; "-f"; path] = Parsed (Options path true 40000 30 0%Q)
  /\ parseArgs ["-f"; path; "--single"] = Parsed (Options path true 40000 30 0%Q).
Proof.
  intros H. destruct (value_token path H) as [Harg Hout].
  repeat split;
    unfold parseArgs, parse_args; cbn [existsb consume head];
    unfold consume_optional; rewrite ?Harg, ?Hout;
    vm_compute; reflexivity.
Qed.

Lemma parseArgs_defaults_witness :
  parseArgs ["-f"; "out.txt"] = Parsed (Options "out.txt" false 40000 30 0%Q)
  /\ parseArgs ["--datafile"; "out.txt"] = Parsed (Options "out.txt" false 40000 30 0%Q)
  /\ parseArgs ["-s"; "-f"; "out.txt"] = Parsed (Options "out.txt" true 40000 30 0%Q)
  /\ parseArgs ["-f"; "out.txt"; "--single"] = Parsed (Options "out.txt" true 40000 30 0%Q).
Proof.
  apply (parseArgs_defaults "out.txt"). reflexivity.
Defined.

(** Value tokens alone never name the data file. *)
Lemma consume_values argv : forall ns extras,
  Forall (fun t => String.prefix "-" t = false) argv ->
  consume parser argv ns ∅ extras = Exits 2.
Proof.
  induction argv as [|t rest IH]; intros ns extras H.
  - by vm_compute.
  - inversion H as [|? ? Ht Hrest]; subst.
    cbn [consume]. rewrite (proj1 (value_token t Ht)). by apply IH.
Qed.

(** X11: the data file is required and the script takes no positional
    argument: a command line in which no token begins with a dash, the
    empty one included, makes the library leave with status 2. *)
Theorem parseArgs_needs_an_option argv :
  Forall (fun t => String.prefix "-" t = false) argv ->
  parseArgs argv = Exits 2.
Proof.
  intros H. unfold parseArgs, parse_args.
  assert (Hout : existsb outside_model argv = false).
  { induction H as [|t rest Ht _ IH]; [reflexivity|].
    cbn [existsb]. rewrite (proj2 (value_token t Ht)). exact IH. }
  assert (Hamb : existsb (fun t => match parse_optional parser t with
                                   | TAmbiguous => true
                                   | _ => false
                                   end) argv = false).
  { clear Hout. induction H as [|t rest Ht _ IH]; [reflexivity|].
    cbn [existsb]. rewrite (proj1 (value_token t Ht)). exact IH. }
  rewrite Hout, Hamb. by apply consume_values.
Qed.

Lemma parseArgs_needs_an_option_witness :
  parseArgs ["out.txt"; "40000"] = Exits 2.
Proof.
  apply (parseArgs_needs_an_option ["out.txt"; "40000"]).
  repeat constructor.
Defined.

(** X12: the long options [--datafile] and [--delay] share their first
    letter, so the abbreviation [--d] names neither: a command line in
    which it occurs makes the library leave with status 2, wherever it
    stands, provided the line is one the model covers: it has no [--]
    token (after which the library reads no option) and no token that
    begins with a dash and holds a newline. *)
Theorem parseArgs_ambiguous_abbreviation argv :
  In "--d" argv ->
  existsb outside_model argv = false ->
  parseArgs argv = Exits 2.
Proof.
  intros Hin Hout. unfold parseArgs, parse_args. rewrite Hout.
  assert (H : existsb (fun t => match parse_optional parser t with
                                | TAmbiguous => true
                                | _ => false
                                end) argv = true).
  { apply existsb_exists. exists "--d". split; [exact Hin | reflexivity]. }
  by rewrite H.
Qed.

Lemma parseArgs_ambiguous_abbreviation_witness :
  parseArgs ["-f"; "out.txt"; "--d"; "2"] = Exits 2.
Proof.
  apply (parseArgs_ambiguous_abbreviation ["-f"; "out.txt"; "--d"; "2"]).
  - simpl. auto.
  - reflexivity.
Defined.

(** ** More on what a run leaves behind *)




